(** * njupt-search-engine: the TF-IDF search page of [app.py]

    [app.py] is a Streamlit script.  [load_data_and_model] reads the
    segmented news corpus, fits scikit-learn's [TfidfVectorizer] with
    [max_features=10000] and keeps the document-term matrix; the search block
    vectorises the query, takes the cosine similarity with every row, orders
    the documents with [argsort()[::-1][:10]] and shows those whose score is
    not below 0.05.

    The library calls are embedded by what they compute, each definition
    named after the call it stands for:
    - [sort_by]: Python's [sorted], which is stable;
    - [argsort]: numpy's [argsort].  Its default sort promises nothing on
      the order of equal keys and differs between builds of numpy, so the
      model takes the sort as a parameter ([Argsort]) of which it knows what
      numpy documents: the positions come back as a permutation, by
      ascending value.  The theorems hold for every such sort; two of them
      ([numpy_stable], [numpy_reversed_ties]) are used where a search is run
      on a concrete corpus;
    - [count_vocab], [sort_features], [limit_features], [document_frequency]:
      the steps of [CountVectorizer.fit_transform];
    - [smooth_idf], [tfidf_row], [normalize]: [TfidfTransformer] with the
      defaults [smooth_idf=True], [norm='l2'];
    - [cosine_similarity]: [sklearn.metrics.pairwise.cosine_similarity];
    - [cached_load]: the decorator [@st.cache_data].

    Array code is written once over a class [Arith] of float operations and
    read at two instances: the real numbers ([exact]), where no operation
    rounds and the general theorems are proved, and IEEE binary64
    ([binary64]), the arithmetic the script runs, where searches on concrete
    corpora are evaluated.  The fit takes a logarithm, which binary64 does
    not have here, so [fit_transform] is stated over the reals and a
    binary64 engine is built from its idf table ([engine_of]).

    Part I is the model, Part II its properties, Part III the theorems of
    the claims C1 to C10, Part IV their witnesses and counterexamples on
    concrete corpora.  Part V holds further properties of the script (X1 to
    X9 and X11 to X19): of the loader, of the reruns under the cache, of the
    analyzer, of the scores, of the ten results and of the cards they are
    shown as; Part VI holds their witnesses, and the witness of C9, which
    reads the scores through the lemmas of Part V. *)

From Stdlib Require Import List String Ascii Bool Arith ZArith Lia.
From Stdlib Require Import Permutation Sorted.
From Stdlib Require Import Reals Lra.
From Stdlib Require Floats Uint63.
From Stdlib Require OrderedTypeEx.
Import ListNotations.

Set Implicit Arguments.

(** * Part I: the model *)

(** ** Sorting: [sorted] and [ndarray.argsort] *)

Section Sorting.
Context {A B : Type}.
Variable key : B -> A.
Variable ltb : A -> A -> bool.

(** [x] goes in front of the first element whose key is not below its own,
    so elements with equal keys keep the order they came in. *)
Fixpoint insert_by (x : B) (s : list B) : list B :=
  match s with
  | [] => [x]
  | y :: s' => if ltb (key y) (key x) then y :: insert_by x s' else x :: y :: s'
  end.

Fixpoint sort_by (l : list B) : list B :=
  match l with
  | [] => []
  | x :: l' => insert_by x (sort_by l')
  end.

End Sorting.

(** [enumerate a] pairs every entry of [a] with its position. *)
Definition enumerate {A : Type} (a : list A) : list (nat * A) :=
  combine (seq 0 (List.length a)) a.

(** [a.argsort()]: the positions of [a], arranged so that the values
    ascend.  numpy's default sort ([kind='quicksort'], an introsort or a
    vectorised sort, by build) is not stable: where values are equal the
    arrangement is the sort's own choice.  [ltb] is the order of the values;
    it is asymmetric and its negation is transitive for the integers and
    for the floats that are not NaN. *)
Class Argsort := {
  argsort : forall {A : Type}, (A -> A -> bool) -> list A -> list nat;
  argsort_perm : forall (A : Type) (ltb : A -> A -> bool) (a : list A),
    Permutation (argsort ltb a) (seq 0 (List.length a));
  argsort_ascending :
    forall (A : Type) (ltb : A -> A -> bool) (a : list A) (d : A),
    (forall x y, ltb x y = true -> ltb y x = false) ->
    (forall x y z, ltb y x = false -> ltb z y = false -> ltb z x = false) ->
    StronglySorted (fun i j => ltb (nth j a d) (nth i a d) = false)
                   (argsort ltb a)
}.

(** Two sorts that meet this: the insertion sort, which numpy runs on short
    arrays where it has no vectorised sort and which leaves equal values
    by ascending position, and the insertion sort from the last position
    down, which leaves them by descending position. *)
Definition stable_argsort {A : Type} (ltb : A -> A -> bool) (a : list A)
  : list nat :=
  map fst (sort_by snd ltb (enumerate a)).

Definition reversed_ties_argsort {A : Type} (ltb : A -> A -> bool) (a : list A)
  : list nat :=
  map fst (sort_by snd ltb (rev (enumerate a))).

(** ** Float arithmetic *)

(** The float operations the array code uses: [+], [*], [/], [sqrt],
    the conversion of a count, [==] and [<]. *)
Class Arith (num : Type) := {
  fzero : num;
  fadd : num -> num -> num;
  fmul : num -> num -> num;
  fdiv : num -> num -> num;
  fsqrt : num -> num;
  fof_nat : nat -> num;
  feqb : num -> num -> bool;
  fltb : num -> num -> bool
}.

Definition Reqb (x y : R) : bool := if Req_dec_T x y then true else false.

Definition Rltb (x y : R) : bool := if Rlt_dec x y then true else false.

(** Exact arithmetic: a float is read as the real number it stands for and
    no operation rounds. *)
#[export] Instance exact : Arith R := {
  fzero := 0%R;
  fadd := Rplus;
  fmul := Rmult;
  fdiv := Rdiv;
  fsqrt := R_sqrt.sqrt;
  fof_nat := INR;
  feqb := Reqb;
  fltb := Rltb
}.

(** IEEE 754 binary64, numpy's [float64]: every operation rounds to
    nearest. *)
#[export] Instance binary64 : Arith PrimFloat.float := {
  fzero := PrimFloat.zero;
  fadd := PrimFloat.add;
  fmul := PrimFloat.mul;
  fdiv := PrimFloat.div;
  fsqrt := PrimFloat.sqrt;
  fof_nat := fun n => PrimFloat.of_uint63 (Uint63.of_Z (Z.of_nat n));
  feqb := PrimFloat.eqb;
  fltb := PrimFloat.ltb
}.

(** ** Tokens *)

(** The two text segmenters the script relies on: [jieba.lcut], called on the
    query (line 73), and the analyzer of [TfidfVectorizer] (lower-casing and
    the token pattern), called on every document and on the segmented
    query. *)
Class Tokenizer := {
  jieba_lcut : string -> list string;
  build_analyzer : string -> list string
}.

(** A segmenter for ASCII text, used where a search is run on a concrete
    corpus.  The word characters of the token pattern ([\w]) are the
    letters, the digits and the underscore; jieba keeps runs of letters and
    digits together and cuts at an underscore. *)
Definition is_word_char (c : ascii) : bool :=
  let n := nat_of_ascii c in
  (48 <=? n) && (n <=? 57) || (65 <=? n) && (n <=? 90)
  || (n =? 95) || (97 <=? n) && (n <=? 122).

Definition is_alnum_char (c : ascii) : bool :=
  let n := nat_of_ascii c in
  (48 <=? n) && (n <=? 57) || (65 <=? n) && (n <=? 90)
  || (97 <=? n) && (n <=? 122).

Definition lower_char (c : ascii) : ascii :=
  let n := nat_of_ascii c in
  if (65 <=? n) && (n <=? 90) then ascii_of_nat (n + 32) else c.

Definition flush (cur : string) : list string :=
  match cur with
  | EmptyString => []
  | _ => [cur]
  end.

(** Maximal runs of the characters [word] accepts, and every other
    character on its own. *)
Fixpoint segments (word : ascii -> bool) (s : string) (cur : string)
  : list string :=
  match s with
  | EmptyString => flush cur
  | String c s' =>
      if word c then segments word s' (cur ++ String c EmptyString)%string
      else flush cur ++ String c EmptyString :: segments word s' EmptyString
  end.

Fixpoint lower (s : string) : string :=
  match s with
  | EmptyString => EmptyString
  | String c s' => String (lower_char c) (lower s')
  end.

Definition is_token (w : string) : bool :=
  match w with
  | String c (String _ _) => is_word_char c
  | _ => false
  end.

(** On ASCII text [jieba.lcut] returns the runs of letters and digits and
    the characters between them, one by one, and the default analyzer keeps
    the lower-cased words of two or more word characters.  (jieba keeps a
    decimal number or a percentage in one piece; cutting it at its dot or
    its percent sign gives the analyzer the same words.  Text that is not
    ASCII is outside this segmenter: its bytes are taken for separators.) *)
Definition ascii_tokenizer : Tokenizer := {|
  jieba_lcut := fun s => segments is_alnum_char s EmptyString;
  build_analyzer :=
    fun s => filter is_token (segments is_word_char (lower s) EmptyString)
|}.

(** ** Exceptions *)

Record exn := { exc_type : string; exc_msg : string }.

Definition ValueError (msg : string) : exn :=
  {| exc_type := "ValueError"; exc_msg := msg |}.

(** ** [CountVectorizer] *)

(** The vocabulary of [_count_vocab] is a dict that gives every new term
    the next free index: a list of the distinct terms in the order they are
    first met. *)
Definition add_term (vocabulary : list string) (feature : string) : list string :=
  if existsb (String.eqb feature) vocabulary then vocabulary
  else vocabulary ++ [feature].

Definition count_vocab (docs : list (list string)) : list string :=
  fold_left add_term (List.concat docs) [].

(** [_sort_features]: [sorted(vocabulary.items())], the terms in ascending
    order of their code points, each renumbered by its rank. *)
Definition sort_features (vocabulary : list string) : list string :=
  sort_by (fun t => t) String.ltb vocabulary.

(** The count matrix, one dense row per document: the entry of a document
    in the column of term [t] is the number of times [t] occurs in it. *)
Definition count_row (features : list string) (doc : list string) : list nat :=
  map (count_occ string_dec doc) features.

Definition count_matrix (features : list string) (docs : list (list string))
  : list (list nat) :=
  map (count_row features) docs.

Definition column (X : list (list nat)) (j : nat) : list nat :=
  map (fun row => nth j row 0) X.

(** [_document_frequency(X)]: in how many rows each column is not zero. *)
Definition document_frequency (X : list (list nat)) (n_features : nat) : list nat :=
  map (fun j => List.length (filter (fun c => negb (c =? 0)) (column X j)))
      (seq 0 n_features).

(** [X.sum(axis=0)]: the number of occurrences of each term in the corpus. *)
Definition column_sums (X : list (list nat)) (n_features : nat) : list nat :=
  map (fun j => list_sum (column X j)) (seq 0 n_features).

(** [np.where(mask)[0]] *)
Definition where_ (mask : list bool) : list nat :=
  filter (fun j => nth j mask false) (seq 0 (List.length mask)).

Definition select {T : Type} (d : T) (l : list T) (indices : list nat) : list T :=
  map (fun j => nth j l d) indices.

(** [_limit_features(X, vocabulary, high, low, limit)]: a mask over the
    columns by document frequency; when more than [limit] columns are left,
    the [limit] first of [(-tfs[mask]).argsort()]; the columns kept are
    renumbered in the order they stand in ([np.cumsum(mask) - 1]).  Which
    of the columns with equal sums are among the [limit] first is the
    choice of [argsort]. *)
Definition limit_mask {srt : Argsort}
    (X : list (list nat)) (n_features high low limit : nat)
  : list bool :=
  let dfs := document_frequency X n_features in
  let mask := map (fun d => (d <=? high) && (low <=? d)) dfs in
  if limit <? List.length (where_ mask) then
    let tfs := column_sums X n_features in
    let candidates := where_ mask in
    let mask_inds :=
      firstn limit
        (argsort Z.ltb (map (fun j => Z.opp (Z.of_nat (nth j tfs 0))) candidates)) in
    let chosen := select 0 candidates mask_inds in
    map (fun j => existsb (Nat.eqb j) chosen) (seq 0 (List.length dfs))
  else mask.

Definition limit_features {srt : Argsort}
    (features : list string) (X : list (list nat))
    (high low limit : nat) : exn + (list string * list (list nat)) :=
  let mask := limit_mask X (List.length features) high low limit in
  let kept_indices := where_ mask in
  match kept_indices with
  | [] => inl (ValueError
      "After pruning, no terms remain. Try a lower min_df or a higher max_df.")
  | _ => inr (select EmptyString features kept_indices,
              map (fun row => select 0 row kept_indices) X)
  end.

(** The two frequencies of a term the specification speaks of: the number
    of documents that contain it, and the number of times it occurs in the
    corpus. *)
Definition docs_containing (t : string) (docs : list (list string)) : nat :=
  List.length (filter (fun doc => existsb (String.eqb t) doc) docs).

Definition corpus_frequency (t : string) (docs : list (list string)) : nat :=
  count_occ string_dec (List.concat docs) t.

Section Vectorizer.
Context {srt : Argsort} {tok : Tokenizer}.

(** [CountVectorizer.fit_transform] with [max_df=1.0] and [min_df=1]: the
    fitted vocabulary, in index order, and the count matrix. *)
Definition count_fit_transform (max_features : nat) (raw_documents : list string)
  : exn + (list string * list (list nat)) :=
  let docs := map build_analyzer raw_documents in
  match count_vocab docs with
  | [] => inl (ValueError
      "empty vocabulary; perhaps the documents only contain stop words")
  | vocabulary =>
      let n_doc := List.length raw_documents in
      let max_doc_count := n_doc in
      let min_doc_count := 1 in
      if max_doc_count <? min_doc_count then
        inl (ValueError "max_df corresponds to < documents than min_df")
      else
        let features := sort_features vocabulary in
        let X := count_matrix features docs in
        limit_features features X max_doc_count min_doc_count max_features
  end.

(** ** [TfidfTransformer] and [TfidfVectorizer] *)

(** A fitted vectorizer: [vocabulary_] maps the term at position [j] to
    index [j]; [idf_] is the weight of each index. *)
Record TfidfVectorizer (num : Type) := {
  vocabulary_ : list string;
  idf_ : list num
}.

Section Arrays.
Context {num : Type} {ar : Arith num}.

(** [inplace_csr_row_normalize_l2]: the squares are summed from 0.0 in
    column order, a row whose sum is 0.0 is left alone, every other entry is
    divided by the square root of the sum.  (The rows are sparse in the
    library; an entry that is not stored adds an exact 0.0 to the sum.) *)
Definition sum_squares (row : list num) : num :=
  fold_left (fun s x => fadd s (fmul x x)) row fzero.

Definition normalize (row : list num) : list num :=
  let s := sum_squares row in
  if feqb s fzero then row
  else map (fun x => fdiv x (fsqrt s)) row.

(** [TfidfTransformer.transform] on a row of counts:
    [X.data *= idf_[X.indices]], then [normalize(X, norm='l2')]. *)
Definition tfidf_weights (idf : list num) (counts : list nat) : list num :=
  map (fun cw => fmul (fof_nat (fst cw)) (snd cw)) (combine counts idf).

Definition tfidf_row (idf : list num) (counts : list nat) : list num :=
  normalize (tfidf_weights idf counts).

(** [vectorizer.transform([doc])]: the counts of the vocabulary's terms in
    the document (any other term is ignored), weighted and normalised. *)
Definition transform (vectorizer : TfidfVectorizer num) (raw_document : string)
  : list num :=
  tfidf_row (idf_ vectorizer)
    (count_row (vocabulary_ vectorizer) (build_analyzer raw_document)).

(** The product of a query row and a document row, accumulated from 0.0 in
    column order. *)
Definition dot (x y : list num) : num :=
  fold_left (fun s xy => fadd s (fmul (fst xy) (snd xy))) (combine x y) fzero.

(** [cosine_similarity(X, Y)] for a one-row [X], flattened: both arguments
    are normalised again and multiplied. *)
Definition cosine_similarity (query_vec : list num) (Y : list (list num))
  : list num :=
  let x_normalized := normalize query_vec in
  map (fun y => dot x_normalized (normalize y)) Y.

(** ** The search block (lines 69-111) *)

Record news := {
  title : string;
  link : string;
  content : string;
  cut_content : string
}.

(** What [load_data_and_model] returns when the file is there. *)
Record engine := {
  df : list news;
  vectorizer : TfidfVectorizer num;
  tfidf_matrix : list (list num)
}.

(** The literal [0.05]. *)
Definition relevance_floor : num := fdiv (fof_nat 5) (fof_nat 100).

Definition top_k : nat := 10.

(** The loop of lines 86-105 over [sorted_indices]: an index whose score is
    below the floor is skipped, any other is shown with its score. *)
Fixpoint show_results (sim_scores : list num) (sorted_indices : list nat)
  : list (nat * num) :=
  match sorted_indices with
  | [] => []
  | idx :: rest =>
      let score := nth idx sim_scores fzero in
      if fltb score relevance_floor then show_results sim_scores rest
      else (idx, score) :: show_results sim_scores rest
  end.

(** Lines 80-88 on an array of scores. *)
Definition rank (sim_scores : list num) : list (nat * num) :=
  let sorted_indices := firstn top_k (rev (argsort fltb sim_scores)) in
  show_results sim_scores sorted_indices.

(** The Ranker as the specification states its steps 2 to 4: discard the
    documents whose score is strictly less than the floor; sort the
    survivors by descending score, equal scores by ascending document id;
    keep the first [top_k].  (The survivors come in ascending id and the
    insertion sort keeps equal scores in the order they come in.) *)
Definition ranker_steps (sim_scores : list num) : list (nat * num) :=
  let survivors :=
    filter (fun p => negb (fltb (snd p) relevance_floor)) (enumerate sim_scores) in
  let sorted := sort_by snd (fun x y => fltb y x) survivors in
  firstn top_k sorted.

Inductive notice :=
| Silent
| Warning
| Success (found_count : nat).

(** What a run shows: the results in display order, each the index of the
    row of [df] it is rendered from and its score, and the closing line. *)
Record page := {
  results : list (nat * num);
  closing : notice
}.

Definition search (st : engine) (query : string) : list num :=
  let query_cut := String.concat " " (jieba_lcut query) in
  let query_vec := transform (vectorizer st) query_cut in
  cosine_similarity query_vec (tfidf_matrix st).

Definition search_response (st : engine) (search_btn : bool) (query : string)
  : page :=
  if search_btn && negb (query =? "")%string then
    let shown := rank (search st query) in
    let found_count := List.length shown in
    {| results := shown;
       closing := if found_count =? 0 then Warning else Success found_count |}
  else {| results := []; closing := Silent |}.

End Arrays.

(** ** [load_data_and_model] (lines 19-36) *)

(** [TfidfTransformer.fit]: [np.log((1 + n_samples) / (1 + df)) + 1]. *)
Definition smooth_idf (n_samples d : nat) : R :=
  (ln (INR (n_samples + 1) / (INR d + 1)) + 1)%R.

Definition fit_idf (X : list (list nat)) (n_features : nat) : list R :=
  map (smooth_idf (List.length X)) (document_frequency X n_features).

(** [TfidfVectorizer(max_features=...).fit_transform(corpus)] *)
Definition fit_transform (max_features : nat) (corpus : list string)
  : exn + (TfidfVectorizer R * list (list R)) :=
  match count_fit_transform max_features corpus with
  | inl e => inl e
  | inr (features, X) =>
      let idf := fit_idf X (List.length features) in
      inr ({| vocabulary_ := features; idf_ := idf |}, map (tfidf_row idf) X)
  end.

#[warnings="-abstract-large-number"]
Definition max_features : nat := 10000.

(** The engine of a fit that returned the vocabulary [features] and the
    count matrix [X]. *)
Definition fitted_engine (rows : list news) (features : list string)
    (X : list (list nat)) : @engine R :=
  let idf := fit_idf X (List.length features) in
  {| df := rows;
     vectorizer := {| vocabulary_ := features; idf_ := idf |};
     tfidf_matrix := map (tfidf_row idf) X |}.

(** The argument is what [pd.read_csv] finds: [None] when the file is
    missing ([FileNotFoundError], the one exception that line 24 catches),
    and otherwise the rows of the table it returns, every cell a text (with
    [keep_default_na=False] an empty cell is the empty text).  The result is
    [inl] for an exception that leaves the function, [inr None] for
    [return None, None, None].

    Outside this model: a file that [pd.read_csv] cannot parse (a file of
    no bytes among them, [EmptyDataError]), a table without the column
    [cut_content] ([KeyError]) and a column that pandas reads as numbers
    ([AttributeError] in the fit).  No line catches these exceptions: they
    leave the function, and nothing below speaks of such files. *)
Definition load_data_and_model (csv : option (list news))
  : exn + option (@engine R) :=
  match csv with
  | None => inr None
  | Some rows =>
      let corpus := map cut_content rows in
      match fit_transform max_features corpus with
      | inl e => inl e
      | inr (v, m) => inr (Some {| df := rows; vectorizer := v; tfidf_matrix := m |})
      end
  end.

(** [@st.cache_data]: the first call that returns stores its value, and
    every later call returns the stored value without running the body; a
    call that raises stores nothing. *)
Definition cache : Type := option (option (@engine R)).

Definition cached_load (c : cache) (csv : option (list news))
  : (exn + option (@engine R)) * cache :=
  match c with
  | Some v => (inr v, c)
  | None =>
      match load_data_and_model csv with
      | inl e => (inl e, None)
      | inr v => (inr v, Some v)
      end
  end.

(** One run of the script: it ends with the exception of the loader, at
    [st.stop()] when [df is None], or with the page. *)
Inductive view :=
| Crash (e : exn)
| Stop
| Show (p : @page R).

Definition run_script (c : cache) (csv : option (list news))
    (search_btn : bool) (query : string) : view * cache :=
  match cached_load c csv with
  | (inl e, c') => (Crash e, c')
  | (inr None, c') => (Stop, c')
  | (inr (Some st), c') => (Show (search_response st search_btn query), c')
  end.

End Vectorizer.

(** ** Exact rows *)

(** The squared Euclidean norm and the inner product of rows of reals, by
    recursion on the rows. *)
Fixpoint sumsq (row : list R) : R :=
  match row with
  | [] => 0%R
  | x :: row' => (x * x + sumsq row')%R
  end.

Fixpoint dotR (x y : list R) : R :=
  match x, y with
  | a :: x', b :: y' => (a * b + dotR x' y')%R
  | _, _ => 0%R
  end.

Definition euclidean_norm (row : list R) : R := R_sqrt.sqrt (sumsq row).

(** ** Engines for given rows *)

(** The engine for the rows of the file once the vocabulary and the idf
    table are known: its matrix holds the vectorised rows.  A load that
    succeeds returns such an engine ([load_engine_of] below); read in
    [binary64] it is the state the script searches. *)
Definition engine_of {num : Type} {ar : Arith num} {tok : Tokenizer}
    (rows : list news) (v : TfidfVectorizer num) : engine :=
  {| df := rows; vectorizer := v;
     tfidf_matrix := map (fun r => transform v (cut_content r)) rows |}.

Definition article (t c : string) : news :=
  {| title := t; link := "https://news.example/"; content := c; cut_content := c |}.

(** The three documents of the specification's example. *)
Definition sample_rows : list news :=
  [article "a0" "scholarship exam";
   article "a1" "cafeteria menu";
   article "a2" "scholarship deadline"].

Definition sample_corpus : list string := map cut_content sample_rows.

(** The engine the loader returns for them ([sample_load] below). *)
Definition sample_engine : @engine R :=
  fitted_engine sample_rows
    ["cafeteria"; "deadline"; "exam"; "menu"; "scholarship"]%string
    [[0; 0; 1; 0; 1]; [1; 0; 0; 1; 0]; [0; 1; 0; 0; 1]].

(** Two documents with the same text. *)
Definition twin_rows : list news := [article "a0" "aa bb"; article "a1" "aa bb"].

(** One document of three terms. *)
Definition single_rows : list news := [article "a0" "aa bb cc"].

(** A document and the document that repeats it five times. *)
Definition repeated_rows : list news :=
  [article "a0" "aa bb bb cc cc cc";
   article "a1" ("aa bb bb cc cc cc aa bb bb cc cc cc aa bb bb cc cc cc "
                 ++ "aa bb bb cc cc cc aa bb bb cc cc cc")].

(** The idf table of a corpus in which every term is in every document,
    [np.log(1.0) + 1.0] in each entry. *)
Definition unit_vectorizer {num : Type} {ar : Arith num} (features : list string)
  : TfidfVectorizer num :=
  {| vocabulary_ := features; idf_ := map (fun _ => fof_nat 1) features |}.

(** ** The result cards (lines 91-105) *)

Definition IndexError (msg : string) : exn :=
  {| exc_type := "IndexError"; exc_msg := msg |}.

(** [df.iloc[idx]] for an index that is not negative: the row at that
    position, and [IndexError] past the last row. *)
Definition iloc (rows : list news) (idx : nat) : exn + news :=
  match nth_error rows idx with
  | Some row => inr row
  | None => inl (IndexError "single positional indexer is out-of-bounds")
  end.

(** Line 96: the heading is a markdown link to the article. *)
Definition card_heading (row : news) : string :=
  ("#### [" ++ title row ++ "](" ++ link row ++ ")")%string.

(** A Python [str] is held as its UTF-8 bytes.  A character starts at
    every byte that is not a continuation byte (10xxxxxx), so the number of
    characters of a text is the number of these bytes, and [s[:n]] is the
    text up to the byte that starts character [n]. *)
Definition is_continuation (c : ascii) : bool :=
  let k := nat_of_ascii c in (128 <=? k) && (k <? 192).

Fixpoint code_points (s : string) : nat :=
  match s with
  | EmptyString => 0
  | String c s' =>
      if is_continuation c then code_points s' else S (code_points s')
  end.

Fixpoint str_prefix (n : nat) (s : string) : string :=
  match s with
  | EmptyString => EmptyString
  | String c s' =>
      if is_continuation c then String c (str_prefix n s')
      else
        match n with
        | 0 => EmptyString
        | S n' => String c (str_prefix n' s')
        end
  end.

(** Line 102: [str(row['content'])[:80] + "..."]. *)
Definition content_preview (row : news) : string :=
  (str_prefix 80 (content row) ++ "...")%string.

(** What the container of one result shows: the heading, the value of the
    progress bar (its label prints the same score) and the caption. *)
Record card (num : Type) := {
  heading : string;
  progress : num;
  caption : string
}.

Section Cards.
Context {num : Type} {ar : Arith num} {srt : Argsort} {tok : Tokenizer}.

(** The loop of lines 86-105 with what it renders: the cards of the
    iterations that completed, and either the exception of [df.iloc[idx]]
    that ended the loop or the last value of [found_count]. *)
Fixpoint render_results (rows : list news) (sim_scores : list num)
    (sorted_indices : list nat) (found_count : nat)
  : list (card num) * (exn + nat) :=
  match sorted_indices with
  | [] => ([], inr found_count)
  | idx :: rest =>
      let score := nth idx sim_scores fzero in
      if fltb score relevance_floor then
        render_results rows sim_scores rest found_count
      else
        let found_count := S found_count in
        match iloc rows idx with
        | inl e => ([], inl e)
        | inr row =>
            let (shown, r) := render_results rows sim_scores rest found_count in
            ({| heading := card_heading row;
                progress := score;
                caption := content_preview row |} :: shown, r)
        end
  end.

(** What the search block puts on the screen: the cards, then the
    exception that ended the run or the closing line. *)
Record screen := {
  cards : list (card num);
  ending : exn + notice
}.

(** Lines 69-111. *)
Definition search_block (st : @engine num) (search_btn : bool) (query : string)
  : screen :=
  if search_btn && negb (query =? "")%string then
    let sim_scores := search st query in
    let sorted_indices := firstn top_k (rev (argsort fltb sim_scores)) in
    let (shown, r) := render_results (df st) sim_scores sorted_indices 0 in
    {| cards := shown;
       ending :=
         match r with
         | inl e => inl e
         | inr found_count =>
             inr (if found_count =? 0 then Warning else Success found_count)
         end |}
  else {| cards := []; ending := inr Silent |}.

End Cards.

(** ** Reruns *)

(** Streamlit runs the script again from the top at every interaction; the
    cache of [@st.cache_data] lives across the runs.  An event is what one
    run finds: the file on disk, the state of the button and the text of the
    input box. *)
Record event := {
  file : option (list news);
  pressed : bool;
  typed : string
}.

Fixpoint session {srt : Argsort} {tok : Tokenizer}
    (c : cache) (events : list event)
  : list view * cache :=
  match events with
  | [] => ([], c)
  | e :: rest =>
      let (v, c') := run_script c (file e) (pressed e) (typed e) in
      let (vs, c'') := session c' rest in
      (v :: vs, c'')
  end.

(** What a run shows once the value [v] of the loader is cached. *)
Definition answer {srt : Argsort} {tok : Tokenizer}
    (v : option (@engine R)) (e : event) : view :=
  match v with
  | None => Stop
  | Some st => Show (search_response st (pressed e) (typed e))
  end.

(** ** A binary64 engine *)

(** The engine the script searches for [repeated_rows], in binary64. *)
Definition repeated_floats : @engine PrimFloat.float :=
  engine_of (ar := binary64) (tok := ascii_tokenizer) repeated_rows
    (unit_vectorizer ["aa"; "bb"; "cc"]%string).

(** * Part II: properties *)

(** ** Sorting *)

Section SortingFacts.
Context {A B : Type}.
Variable key : B -> A.
Variable ltb : A -> A -> bool.
Hypothesis ltb_asym : forall x y, ltb x y = true -> ltb y x = false.
Hypothesis leb_trans :
  forall x y z, ltb y x = false -> ltb z y = false -> ltb z x = false.

(** [before] is the order the elements come in. *)
Variable before : B -> B -> Prop.

(** [x] may stand in front of [y] in the sorted list: its key is not above
    the key of [y], and with equal keys it came first. *)
Definition stable_order (x y : B) : Prop :=
  ltb (key y) (key x) = false /\ (ltb (key x) (key y) = true \/ before x y).

Lemma insert_by_perm x s : Permutation (insert_by key ltb x s) (x :: s).
Proof.
  induction s as [|y s IH]; simpl; [reflexivity|].
  destruct (ltb (key y) (key x)); [|reflexivity].
  rewrite IH. apply perm_swap.
Qed.

Lemma sort_by_perm l : Permutation (sort_by key ltb l) l.
Proof.
  induction l as [|x l IH]; simpl; [constructor|].
  rewrite insert_by_perm. now constructor.
Qed.

Lemma insert_by_stable x s :
  StronglySorted stable_order s -> Forall (before x) s ->
  StronglySorted stable_order (insert_by key ltb x s).
Proof.
  induction 1 as [|y s Hs IH Hy]; intros Hx; simpl.
  - repeat constructor.
  - inversion Hx as [|? ? Hxy Hxs]; subst.
    destruct (ltb (key y) (key x)) eqn:E.
    + constructor; [now apply IH|].
      eapply Permutation_Forall; [symmetry; apply insert_by_perm|].
      constructor; [|assumption].
      split; [now apply ltb_asym | now left].
    + constructor; [now constructor|].
      constructor; [split; [assumption | now right]|].
      rewrite Forall_forall in Hy, Hxs |- *. intros z Hz.
      destruct (Hy z Hz) as [Hzy _].
      split; [now apply leb_trans with (y := key y) | right; auto].
Qed.

Lemma sort_by_stable l :
  StronglySorted before l -> StronglySorted stable_order (sort_by key ltb l).
Proof.
  induction 1 as [|x l Hl IH Hx]; simpl; [constructor|].
  apply insert_by_stable; [assumption|].
  eapply Permutation_Forall; [symmetry; apply sort_by_perm | assumption].
Qed.

End SortingFacts.

Section SortingAscending.
Context {A B : Type}.
Variable key : B -> A.
Variable ltb : A -> A -> bool.
Hypothesis ltb_asym : forall x y, ltb x y = true -> ltb y x = false.
Hypothesis leb_trans :
  forall x y z, ltb y x = false -> ltb z y = false -> ltb z x = false.

Let ascending : B -> B -> Prop := stable_order key ltb (fun _ _ => True).

Lemma sort_by_ascending l : StronglySorted ascending (sort_by key ltb l).
Proof.
  apply sort_by_stable; try assumption.
  induction l; constructor; [assumption | now apply Forall_forall].
Qed.

End SortingAscending.

(** ** Lists in order *)

Lemma In_firstn {T : Type} n (l : list T) x : In x (firstn n l) -> In x l.
Proof.
  revert n. induction l as [|y l IH]; intros [|n]; simpl; try tauto.
  intros [E|H]; [now left | right; eauto].
Qed.

Lemma StronglySorted_app {T : Type} (rel : T -> T -> Prop) (l1 l2 : list T) :
  StronglySorted rel l1 -> StronglySorted rel l2 ->
  (forall x y, In x l1 -> In y l2 -> rel x y) ->
  StronglySorted rel (l1 ++ l2).
Proof.
  induction 1 as [|x l1 H1 IH Hx]; intros H2 H12; simpl; [assumption|].
  constructor.
  - apply IH; [assumption|]. intros; apply H12; simpl; auto.
  - apply Forall_app. split; [assumption|].
    apply Forall_forall. intros y Hy. apply H12; simpl; auto.
Qed.

Section OrderedLists.
Context {T : Type}.
Variable rel : T -> T -> Prop.

Lemma StronglySorted_rev (l : list T) :
  StronglySorted rel l -> StronglySorted (fun x y => rel y x) (rev l).
Proof.
  induction 1 as [|x l H IH Hx]; simpl; [constructor|].
  apply StronglySorted_app; [assumption | repeat constructor |].
  intros y z Hy [<-|[]]. rewrite Forall_forall in Hx.
  apply Hx. now apply in_rev.
Qed.

Lemma StronglySorted_firstn n (l : list T) :
  StronglySorted rel l -> StronglySorted rel (firstn n l).
Proof.
  intros H. revert n.
  induction H as [|x l H IH Hx]; intros [|n]; simpl; try constructor.
  - apply IH.
  - rewrite Forall_forall in Hx |- *. intros y Hy.
    apply Hx. eapply In_firstn; eassumption.
Qed.

Lemma StronglySorted_filter f (l : list T) :
  StronglySorted rel l -> StronglySorted rel (filter f l).
Proof.
  induction 1 as [|x l H IH Hx]; simpl; [constructor|].
  destruct (f x); [|assumption].
  constructor; [assumption|].
  rewrite Forall_forall in Hx |- *. intros y Hy.
  apply Hx. now apply filter_In in Hy.
Qed.

Lemma StronglySorted_weaken (rel' : T -> T -> Prop) (l : list T) :
  (forall x y, In x l -> In y l -> rel x y -> rel' x y) ->
  StronglySorted rel l -> StronglySorted rel' l.
Proof.
  intros Himp H. induction H as [|x l H IH Hx]; constructor.
  - apply IH. intros; apply Himp; simpl; auto.
  - rewrite Forall_forall in Hx |- *. intros y Hy.
    apply Himp; simpl; auto.
Qed.

(** In a sorted list whose accepted elements come first, keeping the
    accepted ones and cutting at [n] can be done in either order. *)
Lemma firstn_filter_prefix f n (l : list T) :
  StronglySorted rel l ->
  (forall x y, rel x y -> f y = true -> f x = true) ->
  firstn n (filter f l) = filter f (firstn n l).
Proof.
  intros H Hup. revert n.
  induction H as [|x l H IH Hx]; intros n; simpl.
  - now rewrite firstn_nil.
  - destruct n as [|n]; simpl.
    + now destruct (f x).
    + destruct (f x) eqn:Fx; simpl; [now rewrite IH|].
      assert (Hnone : forall l', incl l' l -> filter f l' = []).
      { induction l' as [|y l' IHl]; intros Hin; simpl; [reflexivity|].
        rewrite Forall_forall in Hx.
        destruct (f y) eqn:Fy.
        - rewrite (Hup x y) in Fx; [discriminate| |assumption].
          apply Hx, Hin. now left.
        - apply IHl. intros z Hz. apply Hin. now right. }
      rewrite (Hnone l) by apply incl_refl.
      rewrite (Hnone (firstn n l)); [reflexivity|].
      intros z Hz. eapply In_firstn; eassumption.
Qed.

End OrderedLists.

(** ** [enumerate] *)

Lemma combine_seq_nth {A : Type} (d : A) (a : list A) n i x :
  In (i, x) (combine (seq n (List.length a)) a) -> n <= i /\ nth (i - n) a d = x.
Proof.
  revert n. induction a as [|y a IH]; intros n; simpl; [intros []|].
  intros [E|H].
  - injection E as <- <-. split; [lia|]. now rewrite Nat.sub_diag.
  - apply IH in H. destruct H as [Hle <-]. split; [lia|].
    replace (i - n) with (S (i - S n)) by lia. reflexivity.
Qed.

Lemma enumerate_nth {A : Type} (d : A) (a : list A) p :
  In p (enumerate a) -> nth (fst p) a d = snd p.
Proof.
  destruct p as [i x]. intros H.
  apply (combine_seq_nth d) in H. simpl. destruct H as [_ <-].
  now rewrite Nat.sub_0_r.
Qed.

Lemma combine_seq_sorted {A : Type} (a : list A) n :
  StronglySorted (fun p q : nat * A => fst p < fst q)
    (combine (seq n (List.length a)) a).
Proof.
  revert n. induction a as [|y a IH]; intros n; simpl; constructor.
  - apply IH.
  - apply Forall_forall. intros [i x] H.
    apply (combine_seq_nth y) in H. simpl. lia.
Qed.

Lemma enumerate_sorted {A : Type} (a : list A) :
  StronglySorted (fun p q : nat * A => fst p < fst q) (enumerate a).
Proof. apply combine_seq_sorted. Qed.

Lemma enumerate_length {A : Type} (a : list A) :
  List.length (enumerate a) = List.length a.
Proof.
  unfold enumerate. rewrite length_combine, length_seq. apply Nat.min_id.
Qed.

Lemma combine_seq_nth_error {A : Type} (a : list A) n i x :
  In (i, x) (combine (seq n (List.length a)) a) ->
  n <= i /\ nth_error a (i - n) = Some x.
Proof.
  revert n. induction a as [|y a IH]; intros n; simpl; [intros []|].
  intros [E|H].
  - injection E as <- <-. split; [lia|]. now rewrite Nat.sub_diag.
  - apply IH in H. destruct H as [Hle H]. split; [lia|].
    replace (i - n) with (S (i - S n)) by lia. exact H.
Qed.

Lemma enumerate_nth_error {A : Type} (a : list A) i x :
  In (i, x) (enumerate a) -> nth_error a i = Some x.
Proof.
  intros H. apply combine_seq_nth_error in H. destruct H as [_ H].
  now rewrite Nat.sub_0_r in H.
Qed.

(** ** Sorts that meet what numpy documents *)

Lemma map_fst_combine_seq {A : Type} (a : list A) n :
  map fst (combine (seq n (List.length a)) a) = seq n (List.length a).
Proof.
  revert n. induction a as [|x a IH]; intros n; simpl; [reflexivity|].
  now rewrite IH.
Qed.

Lemma StronglySorted_map {S T : Type} (f : S -> T) (rel : T -> T -> Prop)
    (l : list S) :
  StronglySorted (fun x y => rel (f x) (f y)) l -> StronglySorted rel (map f l).
Proof.
  induction 1 as [|x l H IH Hx]; simpl; constructor; [assumption|].
  rewrite Forall_forall in Hx. apply Forall_forall. intros y Hy.
  apply in_map_iff in Hy. destruct Hy as [z [<- Hz]]. now apply Hx.
Qed.

Section InsertionSorts.
Context {A : Type}.
Variable ltb : A -> A -> bool.
Variable a : list A.

(** The insertion sort of the pairs of [enumerate a], in whatever order
    they are given, leaves their positions by ascending value. *)
Lemma sorted_pairs_ascending (d : A) (l : list (nat * A)) :
  (forall x y, ltb x y = true -> ltb y x = false) ->
  (forall x y z, ltb y x = false -> ltb z y = false -> ltb z x = false) ->
  incl l (enumerate a) ->
  StronglySorted (fun i j => ltb (nth j a d) (nth i a d) = false)
                 (map fst (sort_by snd ltb l)).
Proof.
  intros Hasym Htrans Hin. apply StronglySorted_map.
  eapply StronglySorted_weaken;
    [|apply (sort_by_ascending snd ltb Hasym Htrans)].
  intros p q Hp Hq [H _].
  assert (Hmem : forall r, In r (sort_by snd ltb l) -> nth (fst r) a d = snd r).
  { intros r Hr. apply enumerate_nth, Hin.
    eapply Permutation_in; [apply (sort_by_perm snd ltb l) | exact Hr]. }
  now rewrite (Hmem p Hp), (Hmem q Hq).
Qed.

Lemma stable_argsort_perm :
  Permutation (stable_argsort ltb a) (seq 0 (List.length a)).
Proof.
  unfold stable_argsort. rewrite <- (map_fst_combine_seq a 0).
  apply Permutation_map, sort_by_perm.
Qed.

Lemma reversed_ties_argsort_perm :
  Permutation (reversed_ties_argsort ltb a) (seq 0 (List.length a)).
Proof.
  unfold reversed_ties_argsort. rewrite <- (map_fst_combine_seq a 0).
  apply Permutation_map. rewrite sort_by_perm.
  apply Permutation_sym, Permutation_rev.
Qed.

End InsertionSorts.

(** numpy's sort where it is stable. *)
Definition numpy_stable : Argsort := {|
  argsort := @stable_argsort;
  argsort_perm := @stable_argsort_perm;
  argsort_ascending := fun A ltb a d Hasym Htrans =>
    @sorted_pairs_ascending A ltb a d (enumerate a) Hasym Htrans
      (incl_refl (enumerate a))
|}.

(** A sort that leaves equal values the other way round. *)
Definition numpy_reversed_ties : Argsort := {|
  argsort := @reversed_ties_argsort;
  argsort_perm := @reversed_ties_argsort_perm;
  argsort_ascending := fun A ltb a d Hasym Htrans =>
    @sorted_pairs_ascending A ltb a d (rev (enumerate a)) Hasym Htrans
      (fun p Hp => proj2 (in_rev (enumerate a) p) Hp)
|}.

(** ** [argsort] *)

Section ArgsortFacts.
Context {srt : Argsort} {A : Type}.
Variable ltb : A -> A -> bool.

Lemma argsort_In (a : list A) k :
  In k (argsort ltb a) <-> k < List.length a.
Proof.
  split; intros H.
  - apply (Permutation_in _ (argsort_perm ltb a)) in H. apply in_seq in H. lia.
  - apply (Permutation_in _ (Permutation_sym (argsort_perm ltb a))).
    apply in_seq. lia.
Qed.

Lemma argsort_NoDup (a : list A) : NoDup (argsort ltb a).
Proof.
  eapply Permutation_NoDup; [symmetry; apply argsort_perm | apply seq_NoDup].
Qed.

Lemma argsort_length (a : list A) :
  List.length (argsort ltb a) = List.length a.
Proof. rewrite (Permutation_length (argsort_perm ltb a)). apply length_seq. Qed.

End ArgsortFacts.

(** ** The ranking of lines 80-88 *)

(** An index with the score the loop reads for it. *)
Definition scored {num : Type} {ar : Arith num} (a : list num) (idx : nat)
  : nat * num :=
  (idx, nth idx a fzero).

(** The test of line 88, on an index paired with its score. *)
Definition not_below_floor {num : Type} {ar : Arith num} (p : nat * num) : bool :=
  negb (fltb (snd p) relevance_floor).

Section RankFacts.
Context {num : Type} {ar : Arith num} {srt : Argsort}.

Lemma show_results_scored (a : list num) (l : list nat) :
  show_results a l = filter not_below_floor (map (scored a) l).
Proof.
  induction l as [|idx l IH]; simpl; [reflexivity|].
  unfold not_below_floor at 1. simpl.
  destruct (fltb (nth idx a fzero) relevance_floor); simpl; now rewrite IH.
Qed.

Lemma scored_seq (a : list num) n :
  map (scored a) (seq n (List.length a - n)) =
  combine (seq n (List.length a - n)) (skipn n a).
Proof.
  remember (List.length a - n) as m eqn:Hm. revert n Hm.
  induction m as [|m IH]; intros n Hm; simpl; [reflexivity|].
  assert (Hn : n < List.length a) by lia.
  destruct (skipn n a) as [|x rest] eqn:E.
  - apply (f_equal (@List.length num)) in E. rewrite length_skipn in E.
    simpl in E. lia.
  - assert (Hx : nth n a fzero = x /\ skipn (S n) a = rest).
    { rewrite <- (firstn_skipn n a) at 1.
      rewrite app_nth2 by (rewrite length_firstn; lia).
      rewrite length_firstn, Nat.min_l by lia. rewrite Nat.sub_diag, E.
      split; [reflexivity|].
      change (S n) with (1 + n). rewrite <- skipn_skipn, E. reflexivity. }
    destruct Hx as [Hx Hrest]. unfold scored at 1. rewrite Hx. f_equal.
    rewrite <- Hrest. apply IH. lia.
Qed.

Lemma scored_enumerate (a : list num) :
  map (scored a) (seq 0 (List.length a)) = enumerate a.
Proof.
  pose proof (scored_seq a 0) as H. rewrite Nat.sub_0_r in H. exact H.
Qed.

(** The documents from the last position of the sort to the first, each
    with its score. *)
Lemma scored_rev_perm (a : list num) :
  Permutation (map (scored a) (rev (argsort fltb a))) (enumerate a).
Proof.
  rewrite <- scored_enumerate. apply Permutation_map.
  rewrite <- Permutation_rev. apply argsort_perm.
Qed.

(** The loop shows, in order, the documents of the ten last positions of
    the sort, last one first, whose score is not below the floor. *)
Lemma rank_scored (a : list num) :
  rank a =
  filter not_below_floor
    (firstn top_k (map (scored a) (rev (argsort fltb a)))).
Proof. unfold rank. now rewrite show_results_scored, firstn_map. Qed.

Lemma rank_length (a : list num) : List.length (rank a) <= top_k.
Proof.
  rewrite rank_scored.
  eapply Nat.le_trans; [apply filter_length_le | apply firstn_le_length].
Qed.

Lemma rank_not_below (a : list num) p :
  In p (rank a) -> fltb (snd p) relevance_floor = false.
Proof.
  rewrite rank_scored. intros H. apply filter_In in H.
  destruct H as [_ H]. unfold not_below_floor in H.
  now apply negb_true_iff in H.
Qed.

Lemma rank_In (a : list num) p : In p (rank a) -> In p (enumerate a).
Proof.
  rewrite rank_scored. intros H. apply filter_In in H. destruct H as [H _].
  apply In_firstn in H.
  eapply Permutation_in; [apply scored_rev_perm | exact H].
Qed.

Hypothesis fltb_asym : forall x y : num, fltb x y = true -> fltb y x = false.
Hypothesis fleb_trans :
  forall x y z : num, fltb y x = false -> fltb z y = false -> fltb z x = false.

(** From the last position of the sort down, no score is below a later
    one. *)
Lemma scored_rev_sorted (a : list num) :
  StronglySorted (fun p q : nat * num => fltb (snd p) (snd q) = false)
                 (map (scored a) (rev (argsort fltb a))).
Proof.
  apply StronglySorted_map. simpl.
  apply (StronglySorted_rev
           (rel := fun i j => fltb (nth j a fzero) (nth i a fzero) = false)).
  now apply argsort_ascending.
Qed.

Lemma rank_sorted (a : list num) :
  StronglySorted (fun p q : nat * num => fltb (snd p) (snd q) = false) (rank a).
Proof.
  rewrite rank_scored.
  apply StronglySorted_filter, StronglySorted_firstn, scored_rev_sorted.
Qed.

(** Cutting at [top_k] and discarding can be done in either order: the
    documents that are not below the floor come first. *)
Lemma rank_prefix (a : list num) :
  rank a =
  firstn top_k
    (filter not_below_floor (map (scored a) (rev (argsort fltb a)))).
Proof.
  rewrite rank_scored. symmetry.
  apply (firstn_filter_prefix
           (rel := fun p q : nat * num => fltb (snd p) (snd q) = false)).
  - apply scored_rev_sorted.
  - intros p q Hpq Hq. unfold not_below_floor in *.
    apply negb_true_iff in Hq. apply negb_true_iff.
    now apply fleb_trans with (y := snd q).
Qed.

End RankFacts.

(** ** Exact comparisons *)

Lemma Rltb_true x y : Rltb x y = true <-> (x < y)%R.
Proof. unfold Rltb. destruct (Rlt_dec x y); split; intros; easy. Qed.

Lemma Rltb_false x y : Rltb x y = false <-> (y <= x)%R.
Proof.
  unfold Rltb. destruct (Rlt_dec x y); split; intros; try easy; lra.
Qed.

Lemma Rltb_asym x y : Rltb x y = true -> Rltb y x = false.
Proof. rewrite Rltb_true, Rltb_false. lra. Qed.

Lemma Rleb_trans x y z : Rltb y x = false -> Rltb z y = false -> Rltb z x = false.
Proof. rewrite !Rltb_false. lra. Qed.

Lemma Reqb_true x y : Reqb x y = true <-> x = y.
Proof. unfold Reqb. destruct (Req_dec_T x y); split; intros; easy. Qed.

Lemma relevance_floor_exact : @relevance_floor R exact = (5 / 100)%R.
Proof.
  unfold relevance_floor. cbn [fdiv fof_nat exact].
  rewrite !INR_IZR_INZ. reflexivity.
Qed.

(** ** Rows in exact arithmetic *)

Ltac exact_ops :=
  cbn [fzero fadd fmul fdiv fsqrt fof_nat feqb fltb exact] in *.

Section ExactRows.
Local Open Scope R_scope.

Lemma sum_squares_exact (row : list R) : sum_squares row = sumsq row.
Proof.
  unfold sum_squares. exact_ops.
  assert (H : forall s, fold_left (fun s x => s + x * x) row s = s + sumsq row).
  { induction row as [|x row IH]; intros s; simpl; [lra|]. rewrite IH. lra. }
  rewrite H. lra.
Qed.

Lemma dot_exact (x y : list R) : dot x y = dotR x y.
Proof.
  unfold dot. exact_ops.
  assert (H : forall s,
    fold_left (fun s xy => s + fst xy * snd xy) (combine x y) s = s + dotR x y).
  { revert y. induction x as [|a x IH]; intros [|b y] s; simpl; try lra.
    rewrite IH. lra. }
  rewrite H. lra.
Qed.

Lemma sumsq_nonneg (row : list R) : 0 <= sumsq row.
Proof. induction row as [|x row IH]; simpl; [lra | nra]. Qed.

Lemma sumsq_zero (row : list R) : sumsq row = 0 -> Forall (fun x => x = 0) row.
Proof.
  induction row as [|x row IH]; simpl; intros H; constructor.
  - pose proof (sumsq_nonneg row). nra.
  - apply IH. pose proof (sumsq_nonneg row). nra.
Qed.

Lemma sumsq_pos (row : list R) x : In x row -> x <> 0 -> 0 < sumsq row.
Proof.
  intros Hin Hx. pose proof (sumsq_nonneg row) as Hn.
  destruct (Req_dec_T (sumsq row) 0) as [E|E]; [|lra].
  apply sumsq_zero in E. rewrite Forall_forall in E. now apply E in Hin.
Qed.

Lemma sumsq_div (row : list R) c : c <> 0 ->
  sumsq (map (fun x => x / c) row) = sumsq row / (c * c).
Proof.
  intros Hc. induction row as [|x row IH]; simpl; [field; assumption|].
  rewrite IH. field. assumption.
Qed.

(** A row that is not all zero has norm 1 once normalised. *)
Lemma normalize_unit (row : list R) : sumsq row <> 0 -> sumsq (normalize row) = 1.
Proof.
  intros H. unfold normalize. rewrite sum_squares_exact. exact_ops.
  destruct (Reqb (sumsq row) 0) eqn:E; [now apply Reqb_true in E|].
  pose proof (sumsq_nonneg row) as Hn.
  assert (Hs : sqrt (sumsq row) <> 0).
  { intros Hz. apply sqrt_eq_0 in Hz; [contradiction | assumption]. }
  rewrite sumsq_div by assumption.
  rewrite sqrt_sqrt by assumption. now field.
Qed.

(** A row that is all zero is left as it is. *)
Lemma normalize_zero (row : list R) : sumsq row = 0 -> normalize row = row.
Proof.
  intros H. unfold normalize. rewrite sum_squares_exact. exact_ops.
  destruct (Reqb (sumsq row) 0) eqn:E; [reflexivity|].
  assert (Reqb (sumsq row) 0 = true) by now apply Reqb_true.
  congruence.
Qed.

Lemma normalize_of_unit (row : list R) : sumsq row = 1 -> normalize row = row.
Proof.
  intros H. unfold normalize. rewrite sum_squares_exact. exact_ops.
  destruct (Reqb (sumsq row) 0) eqn:E; [reflexivity|].
  rewrite H, sqrt_1. rewrite <- (map_id row) at 2.
  apply map_ext. intros x. field.
Qed.

Lemma normalize_norm (row : list R) : sumsq (normalize row) = 0 \/ sumsq (normalize row) = 1.
Proof.
  destruct (Req_dec_T (sumsq row) 0) as [E|E].
  - left. now rewrite normalize_zero.
  - right. now apply normalize_unit.
Qed.

Lemma normalize_idem (row : list R) : normalize (normalize row) = normalize row.
Proof.
  destruct (normalize_norm row) as [E|E];
    [now apply normalize_zero | now apply normalize_of_unit].
Qed.

Lemma normalize_nonneg (row : list R) :
  Forall (fun x => 0 <= x) row -> Forall (fun x => 0 <= x) (normalize row).
Proof.
  intros H. unfold normalize. rewrite sum_squares_exact. exact_ops.
  destruct (Reqb (sumsq row) 0) eqn:E; [assumption|].
  pose proof (sumsq_nonneg row) as Hn.
  assert (Hs : 0 < sqrt (sumsq row)).
  { apply sqrt_lt_R0. destruct (Req_dec_T (sumsq row) 0) as [Z|Z]; [|lra].
    apply Reqb_true in Z. congruence. }
  rewrite Forall_forall in H |- *. intros y Hy.
  apply in_map_iff in Hy. destruct Hy as [x [<- Hx]].
  apply H in Hx. unfold Rdiv. apply Rmult_le_pos; [assumption|].
  left. now apply Rinv_0_lt_compat.
Qed.

Lemma dotR_le (x y : list R) : 2 * dotR x y <= sumsq x + sumsq y.
Proof.
  revert y. induction x as [|a x IH]; intros [|b y]; simpl.
  - lra.
  - pose proof (sumsq_nonneg y). pose proof (Rle_0_sqr b) as Hb.
    unfold Rsqr in Hb. lra.
  - pose proof (sumsq_nonneg x). pose proof (Rle_0_sqr a) as Ha.
    unfold Rsqr in Ha. lra.
  - specialize (IH y). pose proof (Rle_0_sqr (a - b)) as Hs.
    unfold Rsqr in Hs. lra.
Qed.

Lemma dotR_nonneg x y :
  Forall (fun a => 0 <= a) x -> Forall (fun b => 0 <= b) y -> 0 <= dotR x y.
Proof.
  intros Hx. revert y. induction Hx as [|a x Ha Hx IH]; intros y Hy; simpl;
    [lra|].
  destruct Hy as [|b y Hb Hy]; [lra|]. specialize (IH y Hy). nra.
Qed.

Lemma dotR_self x : dotR x x = sumsq x.
Proof. induction x as [|a x IH]; simpl; [reflexivity | now rewrite IH]. Qed.

Lemma dotR_zero_l x y : Forall (fun a => a = 0) x -> dotR x y = 0.
Proof.
  intros Hx. revert y. induction Hx as [|a x Ha Hx IH]; intros [|b y]; simpl;
    try reflexivity.
  rewrite IH, Ha. lra.
Qed.

(** The cosine of two normalised rows is at most 1, and not negative when
    no entry is. *)
Lemma cosine_le_1 (x y : list R) : dotR (normalize x) (normalize y) <= 1.
Proof.
  pose proof (dotR_le (normalize x) (normalize y)).
  destruct (normalize_norm x), (normalize_norm y); lra.
Qed.

Lemma cosine_nonneg (x y : list R) :
  Forall (fun a => 0 <= a) x -> Forall (fun b => 0 <= b) y ->
  0 <= dotR (normalize x) (normalize y).
Proof. intros Hx Hy. apply dotR_nonneg; now apply normalize_nonneg. Qed.

End ExactRows.

(** ** The order of terms *)

Lemma string_ltb_lt s t : String.ltb s t = true <-> OrderedTypeEx.String_as_OT.lt s t.
Proof.
  rewrite <- OrderedTypeEx.String_as_OT.cmp_lt.
  unfold String.ltb, OrderedTypeEx.String_as_OT.cmp.
  destruct (String.compare s t); split; intros; easy.
Qed.

Lemma string_ltb_asym s t : String.ltb s t = true -> String.ltb t s = false.
Proof.
  unfold String.ltb. rewrite (String.compare_antisym t s).
  now destruct (String.compare s t).
Qed.

Lemma string_ltb_total s t :
  String.ltb s t = false -> s <> t -> String.ltb t s = true.
Proof.
  unfold String.ltb. rewrite (String.compare_antisym t s).
  destruct (String.compare s t) eqn:E; simpl; try easy.
  apply String.compare_eq_iff in E. congruence.
Qed.

Lemma string_ltb_trans s t u :
  String.ltb s t = true -> String.ltb t u = true -> String.ltb s u = true.
Proof.
  rewrite !string_ltb_lt. apply OrderedTypeEx.String_as_OT.lt_trans.
Qed.

Lemma string_ltb_irrefl s : String.ltb s s = false.
Proof.
  destruct (String.ltb s s) eqn:E; [|reflexivity].
  now rewrite (@string_ltb_asym _ _ E) in E.
Qed.

Lemma string_leb_trans s t u :
  String.ltb t s = false -> String.ltb u t = false -> String.ltb u s = false.
Proof.
  intros Hst Htu. destruct (String.ltb u s) eqn:E; [|reflexivity].
  destruct (string_dec s t) as [<-|Hne]; [congruence|].
  pose proof (@string_ltb_total _ _ Hst (not_eq_sym Hne)) as Hlt.
  rewrite (@string_ltb_trans _ _ _ E Hlt) in Htu. discriminate.
Qed.

(** ** The vocabulary *)

Lemma add_term_In vocabulary feature t :
  In t (add_term vocabulary feature) <-> In t vocabulary \/ t = feature.
Proof.
  unfold add_term.
  destruct (existsb (String.eqb feature) vocabulary) eqn:E.
  - apply existsb_exists in E. destruct E as [u [Hu E]].
    apply String.eqb_eq in E. subst u.
    split; [tauto | intros [H| ->]; assumption].
  - rewrite in_app_iff. simpl. intuition.
Qed.

Lemma add_term_NoDup vocabulary feature :
  NoDup vocabulary -> NoDup (add_term vocabulary feature).
Proof.
  intros H. unfold add_term.
  destruct (existsb (String.eqb feature) vocabulary) eqn:E; [assumption|].
  apply NoDup_app; [assumption | repeat constructor; intros [] |].
  intros t Ht [->|[]].
  assert (existsb (String.eqb t) vocabulary = true); [|congruence].
  apply existsb_exists. exists t. split; [assumption | apply String.eqb_refl].
Qed.

Lemma fold_add_term_In ts vocabulary t :
  In t (fold_left add_term ts vocabulary) <-> In t vocabulary \/ In t ts.
Proof.
  revert vocabulary. induction ts as [|u ts IH]; intros v; simpl; [tauto|].
  rewrite IH, add_term_In. intuition.
Qed.

Lemma fold_add_term_NoDup ts vocabulary :
  NoDup vocabulary -> NoDup (fold_left add_term ts vocabulary).
Proof.
  revert vocabulary. induction ts as [|u ts IH]; intros v H; simpl;
    [assumption|].
  now apply IH, add_term_NoDup.
Qed.

Lemma count_vocab_In docs t : In t (count_vocab docs) <-> In t (List.concat docs).
Proof. unfold count_vocab. rewrite fold_add_term_In. simpl. tauto. Qed.

Lemma count_vocab_NoDup docs : NoDup (count_vocab docs).
Proof. apply fold_add_term_NoDup. constructor. Qed.

Lemma sort_features_perm vocabulary :
  Permutation (sort_features vocabulary) vocabulary.
Proof. apply sort_by_perm. Qed.

Lemma NoDup_StronglySorted {T : Type} (l : list T) :
  NoDup l -> StronglySorted (fun x y => x <> y) l.
Proof.
  induction 1 as [|x l Hx H IH]; constructor; [assumption|].
  apply Forall_forall. intros y Hy ->. contradiction.
Qed.

(** The sorted vocabulary is strictly ascending: the index of a term is its
    rank among the terms. *)
Lemma sort_features_ascending vocabulary :
  NoDup vocabulary ->
  StronglySorted (fun s t => String.ltb s t = true) (sort_features vocabulary).
Proof.
  intros H. apply NoDup_StronglySorted in H.
  apply (sort_by_stable (fun t => t) String.ltb string_ltb_asym string_leb_trans) in H.
  eapply StronglySorted_weaken; [|exact H].
  intros s t _ _ [Hts [Hst|Hne]]; [assumption|].
  now apply string_ltb_total.
Qed.

(** ** Masks and selections *)

Lemma seq_sorted a n : StronglySorted lt (seq a n).
Proof.
  revert a. induction n as [|n IH]; intros a; simpl; constructor; [apply IH|].
  apply Forall_forall. intros j Hj. apply in_seq in Hj. lia.
Qed.

Lemma where_In mask j :
  In j (where_ mask) <-> j < List.length mask /\ nth j mask false = true.
Proof.
  unfold where_. rewrite filter_In, in_seq. intuition lia.
Qed.

Lemma where_sorted mask : StronglySorted lt (where_ mask).
Proof. apply StronglySorted_filter, seq_sorted. Qed.

Lemma where_NoDup mask : NoDup (where_ mask).
Proof. apply NoDup_filter, seq_NoDup. Qed.

Lemma where_all mask :
  Forall (fun b => b = true) mask -> where_ mask = seq 0 (List.length mask).
Proof.
  intros H. unfold where_. apply forallb_filter_id. apply forallb_forall.
  intros j Hj. apply in_seq in Hj. rewrite Forall_forall in H.
  apply H, nth_In. lia.
Qed.

Lemma nth_map_seq {T : Type} (g : nat -> T) (d : T) n j :
  j < n -> nth j (map g (seq 0 n)) d = g j.
Proof.
  intros H.
  rewrite (nth_indep _ d (g 0)) by (rewrite length_map, length_seq; lia).
  rewrite map_nth, seq_nth by lia. reflexivity.
Qed.

Lemma where_map_seq (g : nat -> bool) n :
  where_ (map g (seq 0 n)) = filter g (seq 0 n).
Proof.
  unfold where_. rewrite length_map, length_seq.
  apply filter_ext_in. intros j Hj. apply in_seq in Hj.
  apply nth_map_seq. lia.
Qed.

Lemma select_seq {T : Type} (d : T) (l : list T) :
  select d l (seq 0 (List.length l)) = l.
Proof.
  unfold select. apply nth_ext with (d := d) (d' := d).
  - now rewrite length_map, length_seq.
  - intros j Hj. rewrite length_map, length_seq in Hj.
    now apply (@nth_map_seq _ (fun j => nth j l d)).
Qed.

Lemma select_In {T : Type} (d : T) (l : list T) indices x :
  In x (select d l indices) <-> exists j, In j indices /\ nth j l d = x.
Proof.
  unfold select. rewrite in_map_iff. split; intros [j [H1 H2]]; eauto.
Qed.

Lemma StronglySorted_nth {T : Type} (rel : T -> T -> Prop) (d : T) l i j :
  StronglySorted rel l -> i < j < List.length l -> rel (nth i l d) (nth j l d).
Proof.
  intros H. revert i j.
  induction H as [|x l H IH Hx]; intros i j Hij; simpl in Hij; [lia|].
  destruct i as [|i], j as [|j]; try lia; simpl.
  - rewrite Forall_forall in Hx. apply Hx, nth_In. lia.
  - apply IH. lia.
Qed.

Lemma select_sorted {T : Type} (rel : T -> T -> Prop) (d : T) l indices :
  StronglySorted rel l -> StronglySorted lt indices ->
  Forall (fun j => j < List.length l) indices ->
  StronglySorted rel (select d l indices).
Proof.
  intros Hl Hs. induction Hs as [|j js Hs IH Hj]; intros Hb; simpl;
    constructor; inversion Hb as [|? ? Hjb Hjs]; subst.
  - now apply IH.
  - apply Forall_forall. intros x Hx. apply select_In in Hx.
    destruct Hx as [k [Hk <-]]. rewrite Forall_forall in Hj, Hjs.
    apply StronglySorted_nth; [assumption|].
    split; [now apply Hj | now apply Hjs].
Qed.

Lemma select_count_row features doc indices :
  Forall (fun j => j < List.length features) indices ->
  select 0 (count_row features doc) indices =
  count_row (select EmptyString features indices) doc.
Proof.
  intros H. unfold select, count_row. rewrite map_map.
  apply map_ext_in. intros j Hj. rewrite Forall_forall in H.
  rewrite (nth_indep _ 0 (count_occ string_dec doc EmptyString))
    by (rewrite length_map; now apply H).
  apply map_nth.
Qed.

Lemma document_frequency_length X n : List.length (document_frequency X n) = n.
Proof. unfold document_frequency. now rewrite length_map, length_seq. Qed.

Lemma column_sums_length X n : List.length (column_sums X n) = n.
Proof. unfold column_sums. now rewrite length_map, length_seq. Qed.

Lemma limit_mask_length {srt : Argsort} X n high low limit :
  List.length (limit_mask X n high low limit) = n.
Proof.
  unfold limit_mask.
  destruct (limit <? _); rewrite !length_map, ?length_seq;
    apply document_frequency_length.
Qed.

(** ** The count matrix *)

Lemma count_row_nth features doc j :
  j < List.length features ->
  nth j (count_row features doc) 0 =
  count_occ string_dec doc (nth j features EmptyString).
Proof.
  intros H. unfold count_row.
  rewrite (nth_indep _ 0 (count_occ string_dec doc EmptyString))
    by now rewrite length_map.
  apply map_nth.
Qed.

Lemma column_count_matrix features docs j :
  j < List.length features ->
  column (count_matrix features docs) j =
  map (fun doc => count_occ string_dec doc (nth j features EmptyString)) docs.
Proof.
  intros H. unfold column, count_matrix. rewrite map_map.
  apply map_ext. intros doc. now apply count_row_nth.
Qed.

Lemma count_occ_existsb doc t :
  negb (count_occ string_dec doc t =? 0) = existsb (String.eqb t) doc.
Proof.
  induction doc as [|x doc IH]; simpl; [reflexivity|].
  destruct (string_dec x t) as [->|Hne].
  - now rewrite String.eqb_refl.
  - rewrite IH. apply not_eq_sym in Hne. apply String.eqb_neq in Hne.
    now rewrite Hne.
Qed.

(** The document frequency the vectorizer reads off the count matrix is the
    number of documents that contain the term. *)
Lemma document_frequency_nth features docs j :
  j < List.length features ->
  nth j (document_frequency (count_matrix features docs) (List.length features)) 0
  = docs_containing (nth j features EmptyString) docs.
Proof.
  intros H. unfold document_frequency, docs_containing.
  rewrite nth_map_seq by assumption.
  rewrite column_count_matrix by assumption.
  rewrite filter_map_swap, length_map. f_equal.
  apply filter_ext. intros doc. apply count_occ_existsb.
Qed.

Lemma list_sum_count_occ docs t :
  list_sum (map (fun doc => count_occ string_dec doc t) docs) =
  corpus_frequency t docs.
Proof.
  unfold corpus_frequency.
  induction docs as [|doc docs IH]; simpl; [reflexivity|].
  now rewrite count_occ_app, IH.
Qed.

(** The column sum is the number of occurrences of the term in the
    corpus. *)
Lemma column_sums_nth features docs j :
  j < List.length features ->
  nth j (column_sums (count_matrix features docs) (List.length features)) 0
  = corpus_frequency (nth j features EmptyString) docs.
Proof.
  intros H. unfold column_sums.
  rewrite nth_map_seq by assumption.
  rewrite column_count_matrix by assumption. apply list_sum_count_occ.
Qed.

Lemma docs_containing_le t docs : docs_containing t docs <= List.length docs.
Proof. apply filter_length_le. Qed.

Lemma docs_containing_pos t docs :
  In t (List.concat docs) -> 1 <= docs_containing t docs.
Proof.
  intros H. apply in_concat in H. destruct H as [doc [Hdoc Ht]].
  unfold docs_containing.
  induction docs as [|d docs IH]; simpl in *; [contradiction|].
  destruct Hdoc as [->|Hdoc].
  - assert (E : existsb (String.eqb t) doc = true).
    { apply existsb_exists. exists t. split; [assumption | apply String.eqb_refl]. }
    rewrite E. simpl. lia.
  - specialize (IH Hdoc). destruct (existsb (String.eqb t) d); simpl; lia.
Qed.

Lemma document_frequency_le X n :
  Forall (fun d => d <= List.length X) (document_frequency X n).
Proof.
  apply Forall_forall. intros d Hd. unfold document_frequency in Hd.
  apply in_map_iff in Hd. destruct Hd as [j [<- _]].
  eapply Nat.le_trans; [apply filter_length_le|].
  unfold column. now rewrite length_map.
Qed.

(** ** The order [argsort] leaves *)

Lemma StronglySorted_app_inv {T : Type} (rel : T -> T -> Prop) (l1 l2 : list T) :
  StronglySorted rel (l1 ++ l2) ->
  forall x y, In x l1 -> In y l2 -> rel x y.
Proof.
  induction l1 as [|z l1 IH]; simpl; intros H x y Hx Hy; [contradiction|].
  inversion H as [|? ? Hs Hz]; subst. destruct Hx as [->|Hx].
  - rewrite Forall_forall in Hz. apply Hz, in_app_iff. now right.
  - now apply IH.
Qed.

Section ArgsortOrder.
Context {srt : Argsort} {A : Type}.
Variable ltb : A -> A -> bool.
Hypothesis ltb_asym : forall x y, ltb x y = true -> ltb y x = false.
Hypothesis leb_trans :
  forall x y z, ltb y x = false -> ltb z y = false -> ltb z x = false.

(** A position among the [m] first of [argsort] holds a value that is not
    above the value of any later position. *)
Lemma argsort_firstn_skipn (a : list A) (d : A) m k k' :
  In k (firstn m (argsort ltb a)) -> In k' (skipn m (argsort ltb a)) ->
  ltb (nth k' a d) (nth k a d) = false.
Proof.
  intros Hk Hk'.
  pose proof (argsort_ascending ltb a d ltb_asym leb_trans) as Hs.
  rewrite <- (firstn_skipn m) in Hs.
  exact (@StronglySorted_app_inv _ _ _ _ Hs k k' Hk Hk').
Qed.

End ArgsortOrder.

Lemma Zltb_asym x y : Z.ltb x y = true -> Z.ltb y x = false.
Proof. rewrite Z.ltb_lt, Z.ltb_ge. lia. Qed.

Lemma Zleb_trans x y z : Z.ltb y x = false -> Z.ltb z y = false -> Z.ltb z x = false.
Proof. rewrite !Z.ltb_ge. lia. Qed.

(** ** [_limit_features] on a count matrix *)

Lemma nth_map_default {S T : Type} (f : S -> T) (l : list S) (d : S) (e : T) j :
  j < List.length l -> nth j (map f l) e = f (nth j l d).
Proof.
  intros H. rewrite (nth_indep _ e (f d)) by now rewrite length_map.
  apply map_nth.
Qed.

Lemma document_frequency_count_matrix features docs :
  document_frequency (count_matrix features docs) (List.length features) =
  map (fun t => docs_containing t docs) features.
Proof.
  apply nth_ext with (d := 0) (d' := 0).
  - now rewrite document_frequency_length, length_map.
  - intros j Hj. rewrite document_frequency_length in Hj.
    rewrite document_frequency_nth by assumption.
    symmetry. now apply (@nth_map_default _ _ (fun t => docs_containing t docs)).
Qed.

Lemma column_sums_count_matrix features docs :
  column_sums (count_matrix features docs) (List.length features) =
  map (fun t => corpus_frequency t docs) features.
Proof.
  apply nth_ext with (d := 0) (d' := 0).
  - now rewrite column_sums_length, length_map.
  - intros j Hj. rewrite column_sums_length in Hj.
    rewrite column_sums_nth by assumption.
    symmetry. now apply (@nth_map_default _ _ (fun t => corpus_frequency t docs)).
Qed.

Section LimitFacts.
Context {srt : Argsort}.
Variable features : list string.
Variable docs : list (list string).
Variable limit : nat.
Hypothesis features_in : forall t, In t features -> In t (List.concat docs).

Let n := List.length features.
Let X := count_matrix features docs.
Let tf (j : nat) : nat := corpus_frequency (nth j features EmptyString) docs.
Let order := argsort Z.ltb (map (fun j => Z.opp (Z.of_nat (tf j))) (seq 0 n)).
Let kept := where_ (limit_mask X n (List.length docs) 1 limit).

(** With [max_df=1.0] and [min_df=1] the document-frequency mask lets every
    term of the vocabulary through. *)
Lemma frequency_mask_true :
  where_ (map (fun d => (d <=? List.length docs) && (1 <=? d))
              (document_frequency X n)) = seq 0 n.
Proof.
  rewrite where_all.
  - now rewrite length_map, document_frequency_length.
  - unfold X, n. rewrite document_frequency_count_matrix, map_map.
    apply Forall_forall. intros b Hb. apply in_map_iff in Hb.
    destruct Hb as [t [<- Ht]]. apply andb_true_iff. split; apply Nat.leb_le.
    + apply docs_containing_le.
    + apply docs_containing_pos, features_in, Ht.
Qed.

Lemma kept_all : (limit <? n) = false -> kept = seq 0 n.
Proof.
  intros H. unfold kept, limit_mask.
  rewrite frequency_mask_true, length_seq, H. apply frequency_mask_true.
Qed.

Lemma kept_limited :
  (limit <? n) = true ->
  kept = filter (fun j => existsb (Nat.eqb j) (firstn limit order)) (seq 0 n).
Proof.
  intros H. unfold kept, limit_mask.
  rewrite frequency_mask_true, length_seq, H.
  rewrite document_frequency_length, where_map_seq.
  assert (Hkeys :
    map (fun j => Z.opp (Z.of_nat (nth j (column_sums X n) 0))) (seq 0 n) =
    map (fun j => Z.opp (Z.of_nat (tf j))) (seq 0 n)).
  { apply map_ext_in. intros j Hj. apply in_seq in Hj.
    unfold X, n, tf. rewrite column_sums_nth by (unfold n in Hj; lia).
    reflexivity. }
  rewrite Hkeys. fold order.
  assert (Hsel : select 0 (seq 0 n) (firstn limit order) = firstn limit order).
  { unfold select. rewrite <- (map_id (firstn limit order)) at 2.
    apply map_ext_in. intros k Hk. apply In_firstn in Hk.
    apply argsort_In in Hk. rewrite length_map, length_seq in Hk.
    now apply seq_nth. }
  now rewrite Hsel.
Qed.

Lemma kept_In_limited j :
  (limit <? n) = true -> (In j kept <-> In j (firstn limit order)).
Proof.
  intros H. rewrite kept_limited by assumption. rewrite filter_In, in_seq.
  split.
  - intros [_ E]. apply existsb_exists in E. destruct E as [k [Hk E]].
    apply Nat.eqb_eq in E. now subst.
  - intros Hj. split.
    + apply In_firstn, argsort_In in Hj.
      rewrite length_map, length_seq in Hj. lia.
    + apply existsb_exists. exists j. split; [assumption | apply Nat.eqb_refl].
Qed.

Lemma kept_bound : Forall (fun j => j < n) kept.
Proof.
  apply Forall_forall. intros j Hj. apply where_In in Hj.
  rewrite limit_mask_length in Hj. tauto.
Qed.

(** At most [limit] columns are kept. *)
Lemma kept_length : List.length kept <= limit.
Proof.
  destruct (limit <? n) eqn:H.
  - apply Nat.le_trans with (List.length (firstn limit order));
      [|apply firstn_le_length].
    apply NoDup_incl_length; [apply where_NoDup|].
    intros j Hj. now apply kept_In_limited.
  - rewrite kept_all by assumption. rewrite length_seq.
    apply Nat.ltb_ge in H. exact H.
Qed.

(** A column that is kept holds a term that occurs at least as often as
    the term of any column that is dropped. *)
Lemma kept_dominates j j' :
  In j kept -> j' < n -> ~ In j' kept -> tf j' <= tf j.
Proof.
  intros Hj Hj' Hout.
  destruct (limit <? n) eqn:H.
  - rewrite kept_In_limited in Hj, Hout by assumption.
    assert (Hskip : In j' (skipn limit order)).
    { assert (Hin : In j' order)
        by (apply argsort_In; now rewrite length_map, length_seq).
      rewrite <- (firstn_skipn limit order) in Hin.
      apply in_app_iff in Hin. tauto. }
    pose proof (argsort_firstn_skipn Z.ltb Zltb_asym Zleb_trans _ 0%Z
                  _ _ _ Hj Hskip) as H1.
    assert (Hjn : j < n).
    { apply In_firstn, argsort_In in Hj.
      now rewrite length_map, length_seq in Hj. }
    rewrite !nth_map_seq in H1 by assumption.
    apply Z.ltb_ge in H1. lia.
  - rewrite kept_all in Hout by assumption.
    exfalso. apply Hout, in_seq. lia.
Qed.

Lemma kept_nonempty : 1 <= limit -> features <> [] -> kept <> [].
Proof.
  intros Hl Hf.
  assert (Hn : 0 < n) by (unfold n; destruct features; simpl; [easy | lia]).
  destruct (limit <? n) eqn:H.
  - assert (Hlen : List.length order = n).
    { unfold order. rewrite argsort_length.
      now rewrite length_map, length_seq. }
    destruct order as [|k order'] eqn:E; [simpl in Hlen; lia|].
    assert (Hk : In k kept).
    { apply kept_In_limited; [assumption|]. rewrite E.
      destruct limit; [lia | now left]. }
    intros Z. rewrite Z in Hk. contradiction.
  - rewrite kept_all by assumption. destruct n; [lia | discriminate].
Qed.

End LimitFacts.

(** ** Fitting *)

Section FitFacts.
Context {srt : Argsort} {tok : Tokenizer}.

Lemma sort_features_In vocabulary t :
  In t (sort_features vocabulary) <-> In t vocabulary.
Proof.
  split; apply Permutation_in;
    [apply sort_features_perm | symmetry; apply sort_features_perm].
Qed.

(** What a fit that returns has returned: the sorted vocabulary restricted
    to the columns of [limit_mask], and the counts of these terms. *)
Lemma count_fit_transform_inv limit corpus fs X :
  count_fit_transform limit corpus = inr (fs, X) ->
  let docs := map build_analyzer corpus in
  let features := sort_features (count_vocab docs) in
  let kept :=
    where_ (limit_mask (count_matrix features docs) (List.length features)
                       (List.length docs) 1 limit) in
  count_vocab docs <> [] /\ kept <> [] /\
  fs = select EmptyString features kept /\ X = count_matrix fs docs.
Proof.
  intros H docs features kept. unfold count_fit_transform in H.
  fold docs in H. destruct (count_vocab docs) as [|t0 voc] eqn:E;
    [discriminate|].
  destruct (List.length corpus <? 1); [discriminate|].
  unfold limit_features in H. fold features in H.
  replace (List.length corpus) with (List.length docs) in H
    by (unfold docs; apply length_map).
  fold kept in H. destruct kept as [|k kept'] eqn:K; [discriminate|].
  injection H as <- <-.
  split; [discriminate|]. split; [discriminate|]. split; [reflexivity|].
  unfold count_matrix. rewrite map_map. apply map_ext. intros doc.
  apply (@select_count_row features doc (k :: kept')). rewrite <- K.
  apply Forall_forall. intros j Hj. apply where_In in Hj.
  rewrite limit_mask_length in Hj. tauto.
Qed.

Lemma count_fit_transform_empty limit corpus :
  count_vocab (map build_analyzer corpus) = [] ->
  count_fit_transform limit corpus =
  inl (ValueError "empty vocabulary; perhaps the documents only contain stop words").
Proof. intros H. unfold count_fit_transform. now rewrite H. Qed.

(** The fit raises on an empty vocabulary only. *)
Lemma count_fit_transform_total limit corpus :
  1 <= limit -> count_vocab (map build_analyzer corpus) <> [] ->
  exists fs X, count_fit_transform limit corpus = inr (fs, X).
Proof.
  intros Hl Hv. unfold count_fit_transform.
  set (docs := map build_analyzer corpus) in *.
  destruct (count_vocab docs) as [|t0 voc] eqn:E; [contradiction|].
  assert (Hdocs : 1 <= List.length corpus).
  { destruct corpus; simpl; [|lia]. discriminate E. }
  apply Nat.ltb_ge in Hdocs. rewrite Hdocs.
  unfold limit_features. rewrite <- E.
  set (features := sort_features (count_vocab docs)).
  replace (List.length corpus) with (List.length docs)
    by (unfold docs; apply length_map).
  assert (Hk : where_ (limit_mask (count_matrix features docs)
                (List.length features) (List.length docs) 1 limit) <> []).
  { apply kept_nonempty; [| assumption |].
    - intros t Ht. unfold features in Ht. apply -> sort_features_In in Ht.
      now apply -> count_vocab_In in Ht.
    - intros Z. assert (Ht : In t0 features)
        by (apply sort_features_In; rewrite E; now left).
      rewrite Z in Ht. contradiction. }
  destruct (where_ _) eqn:K; [contradiction | eauto].
Qed.

Lemma fit_transform_inv limit corpus (v : TfidfVectorizer R) M :
  fit_transform limit corpus = inr (v, M) ->
  let docs := map build_analyzer corpus in
  count_fit_transform limit corpus =
    inr (vocabulary_ v, count_matrix (vocabulary_ v) docs) /\
  idf_ v = map (fun t => smooth_idf (List.length corpus) (docs_containing t docs))
               (vocabulary_ v) /\
  M = map (transform v) corpus.
Proof.
  intros H docs. unfold fit_transform in H.
  destruct (count_fit_transform limit corpus) as [e|[fs X]] eqn:E;
    [discriminate|].
  pose proof (count_fit_transform_inv _ _ E) as (_ & _ & _ & HX).
  fold docs in HX. injection H as <- <-. simpl. subst X.
  repeat split.
  - unfold fit_idf. rewrite document_frequency_count_matrix, map_map.
    unfold count_matrix. rewrite length_map. unfold docs.
    now rewrite length_map.
  - unfold docs, count_matrix. rewrite !map_map. reflexivity.
Qed.

Lemma fit_transform_total limit corpus :
  1 <= limit -> count_vocab (map build_analyzer corpus) <> [] ->
  exists v M, fit_transform limit corpus = inr (v, M).
Proof.
  intros Hl Hv. destruct (count_fit_transform_total corpus Hl Hv) as [fs [X E]].
  unfold fit_transform. rewrite E. eauto.
Qed.

End FitFacts.

(** ** The weights of a fitted vectorizer *)

Section WeightFacts.
Context {srt : Argsort} {tok : Tokenizer}.
Local Open Scope R_scope.

Lemma fit_transform_eq limit corpus fs X :
  count_fit_transform limit corpus = inr (fs, X) ->
  fit_transform limit corpus =
  inr ({| vocabulary_ := fs; idf_ := fit_idf X (List.length fs) |},
       map (tfidf_row (fit_idf X (List.length fs))) X).
Proof. intros E. unfold fit_transform. now rewrite E. Qed.

Lemma ln_nonneg x : 1 <= x -> 0 <= ln x.
Proof.
  intros [H|<-]; [|rewrite ln_1; lra].
  rewrite <- ln_1. left. apply ln_increasing; lra.
Qed.

(** A term that occurs in [d] of [n] documents, [d <= n], weighs at least
    1. *)
Lemma smooth_idf_ge_1 n d : (d <= n)%nat -> 1 <= smooth_idf n d.
Proof.
  intros H. unfold smooth_idf.
  assert (Hd : 0 < INR d + 1) by (pose proof (pos_INR d); lra).
  assert (Hn : INR d + 1 <= INR (n + 1)).
  { rewrite plus_INR. simpl. apply le_INR in H. lra. }
  assert (1 <= INR (n + 1) / (INR d + 1)).
  { apply Rmult_le_reg_r with (INR d + 1); [assumption|].
    unfold Rdiv. rewrite Rmult_assoc, Rinv_l by lra. lra. }
  pose proof (ln_nonneg H0). lra.
Qed.

Lemma fitted_idf_ge_1 limit corpus (v : TfidfVectorizer R) M :
  fit_transform limit corpus = inr (v, M) ->
  List.length (idf_ v) = List.length (vocabulary_ v) /\
  Forall (fun w => 1 <= w) (idf_ v).
Proof.
  intros H. apply fit_transform_inv in H. destruct H as (_ & -> & _).
  split; [apply length_map|].
  apply Forall_forall. intros w Hw. apply in_map_iff in Hw.
  destruct Hw as [t [<- _]]. apply smooth_idf_ge_1.
  rewrite <- (length_map build_analyzer corpus). apply docs_containing_le.
Qed.

Lemma tfidf_weights_nonneg idf counts :
  Forall (fun w => 0 <= w) idf ->
  Forall (fun x => 0 <= x) (tfidf_weights idf counts).
Proof.
  intros H. apply Forall_forall. intros x Hx. unfold tfidf_weights in Hx.
  apply in_map_iff in Hx. destruct Hx as [[c w] [<- Hcw]].
  apply in_combine_r in Hcw. rewrite Forall_forall in H. exact_ops. simpl.
  apply Rmult_le_pos; [apply pos_INR | now apply H].
Qed.

(** The weights of a document are all zero exactly when none of its terms
    is in the vocabulary. *)
Lemma tfidf_weights_zero idf features doc :
  List.length idf = List.length features ->
  Forall (fun w => 1 <= w) idf ->
  (sumsq (tfidf_weights idf (count_row features doc)) = 0 <->
   forall t, In t doc -> ~ In t features).
Proof.
  intros Hlen Hidf. unfold tfidf_weights, count_row. split.
  - intros H t Ht Hf. apply sumsq_zero in H. rewrite Forall_forall in H.
    apply In_nth with (d := EmptyString) in Hf. destruct Hf as [j [Hj <-]].
    assert (Hin : In (count_occ string_dec doc (nth j features EmptyString),
                      nth j idf 0)
                     (combine (map (count_occ string_dec doc) features) idf)).
    { rewrite <- (@nth_map_default _ _ (count_occ string_dec doc) features
                    EmptyString 0%nat j Hj).
      rewrite <- combine_nth by (rewrite length_map; lia).
      apply nth_In. rewrite length_combine, length_map. lia. }
    apply (in_map (fun cw => fmul (fof_nat (fst cw)) (snd cw))) in Hin.
    apply H in Hin. exact_ops. simpl in Hin.
    assert (Hw : 1 <= nth j idf 0).
    { rewrite Forall_forall in Hidf. apply Hidf, nth_In. lia. }
    assert (Hc : (0 < count_occ string_dec doc (nth j features EmptyString))%nat)
      by now apply count_occ_In.
    apply lt_INR in Hc. simpl in Hc. nra.
  - intros H.
    assert (Hz : Forall (fun x : R => x = 0)
      (map (fun cw => fmul (fof_nat (fst cw)) (snd cw))
           (combine (map (count_occ string_dec doc) features) idf))).
    { apply Forall_forall. intros x Hx. apply in_map_iff in Hx.
      destruct Hx as [[c w] [<- Hcw]]. apply in_combine_l in Hcw.
      apply in_map_iff in Hcw. destruct Hcw as [t [<- Ht]].
      replace (count_occ string_dec doc t) with 0%nat.
      - exact_ops. simpl. lra.
      - symmetry. apply count_occ_not_In. intros Hd. now apply (H t). }
    clear H. induction Hz as [|x l Hx Hz IH]; simpl; [reflexivity|].
    rewrite IH, Hx. lra.
Qed.

Lemma normalize_nonzero (row : list R) :
  sumsq row <> 0 -> normalize row = map (fun x => x / euclidean_norm row) row.
Proof.
  intros H. unfold normalize. rewrite sum_squares_exact. exact_ops.
  destruct (Reqb (sumsq row) 0) eqn:E; [now apply Reqb_true in E|].
  reflexivity.
Qed.

Lemma euclidean_norm_zero (row : list R) : euclidean_norm row = 0 <-> sumsq row = 0.
Proof.
  unfold euclidean_norm. split; intros H.
  - apply sqrt_eq_0; [apply sumsq_nonneg | assumption].
  - rewrite H. apply sqrt_0.
Qed.

End WeightFacts.

(** ** Scores in exact arithmetic *)

Section ScoreFacts.
Context {srt : Argsort} {tok : Tokenizer}.
Local Open Scope R_scope.

Lemma tfidf_weights_all_zero (idf : list R) features doc :
  (forall t, In t doc -> ~ In t features) ->
  Forall (fun x => x = 0) (tfidf_weights idf (count_row features doc)).
Proof.
  intros H. apply Forall_forall. intros x Hx. unfold tfidf_weights in Hx.
  apply in_map_iff in Hx. destruct Hx as [[c w] [<- Hcw]].
  apply in_combine_l in Hcw. unfold count_row in Hcw.
  apply in_map_iff in Hcw. destruct Hcw as [t [<- Ht]].
  replace (count_occ string_dec doc t) with 0%nat.
  - exact_ops. simpl. lra.
  - symmetry. apply count_occ_not_In. intros Hd. now apply (H t).
Qed.

Lemma sumsq_all_zero (row : list R) : Forall (fun x => x = 0) row -> sumsq row = 0.
Proof.
  induction 1 as [|x l Hx Hz IH]; simpl; [reflexivity|]. rewrite IH, Hx. lra.
Qed.

(** A text without a term of the vocabulary is vectorised to a zero row,
    and a zero row scores 0 against every document. *)
Lemma transform_no_overlap (v : TfidfVectorizer R) text :
  (forall t, In t (build_analyzer text) -> ~ In t (vocabulary_ v)) ->
  Forall (fun x => x = 0) (transform v text).
Proof.
  intros H. unfold transform, tfidf_row.
  pose proof (tfidf_weights_all_zero (idf_ v) _ _ H) as Hz.
  now rewrite normalize_zero by now apply sumsq_all_zero.
Qed.

Lemma cosine_similarity_zero (q : list R) Y :
  Forall (fun x => x = 0) q ->
  Forall (fun s => s = 0) (cosine_similarity q Y).
Proof.
  intros Hq. unfold cosine_similarity.
  rewrite normalize_zero by now apply sumsq_all_zero.
  apply Forall_forall. intros s Hs. apply in_map_iff in Hs.
  destruct Hs as [y [<- _]]. rewrite dot_exact. now apply dotR_zero_l.
Qed.

Lemma transform_nonneg (v : TfidfVectorizer R) text :
  Forall (fun w => 0 <= w) (idf_ v) ->
  Forall (fun x => 0 <= x) (transform v text).
Proof.
  intros H. unfold transform, tfidf_row.
  now apply normalize_nonneg, tfidf_weights_nonneg.
Qed.

Lemma cosine_similarity_le_1 (q : list R) Y :
  Forall (fun s => s <= 1) (cosine_similarity q Y).
Proof.
  apply Forall_forall. intros s Hs. apply in_map_iff in Hs.
  destruct Hs as [y [<- _]]. rewrite dot_exact. apply cosine_le_1.
Qed.

Lemma cosine_similarity_nonneg (q : list R) Y :
  Forall (fun x => 0 <= x) q -> Forall (Forall (fun x => 0 <= x)) Y ->
  Forall (fun s => 0 <= s) (cosine_similarity q Y).
Proof.
  intros Hq HY. apply Forall_forall. intros s Hs. apply in_map_iff in Hs.
  destruct Hs as [y [<- Hy]]. rewrite dot_exact.
  rewrite Forall_forall in HY. apply cosine_nonneg; auto.
Qed.

(** The scores of a fitted engine are cosines of rows without a negative
    entry. *)
Lemma fitted_scores_bounds limit corpus (v : TfidfVectorizer R) M text :
  fit_transform limit corpus = inr (v, M) ->
  Forall (fun s => 0 <= s <= 1) (cosine_similarity (transform v text) M).
Proof.
  intros H.
  destruct (fitted_idf_ge_1 _ _ H) as [_ Hidf].
  assert (Hpos : Forall (fun w => 0 <= w) (idf_ v)).
  { eapply Forall_impl; [|exact Hidf]. intros w Hw. simpl in Hw. lra. }
  apply fit_transform_inv in H. destruct H as (_ & _ & ->).
  pose proof (cosine_similarity_le_1 (transform v text) (map (transform v) corpus)) as H1.
  assert (H0 : Forall (fun s => 0 <= s)
                 (cosine_similarity (transform v text) (map (transform v) corpus))).
  { apply cosine_similarity_nonneg; [now apply transform_nonneg|].
    apply Forall_forall. intros y Hy. apply in_map_iff in Hy.
    destruct Hy as [d [<- _]]. now apply transform_nonneg. }
  rewrite Forall_forall in H0, H1 |- *. intros s Hs. split; auto.
Qed.

(** A document that has a term of the vocabulary is a unit row. *)
Lemma fitted_row_unit limit corpus (v : TfidfVectorizer R) M doc :
  fit_transform limit corpus = inr (v, M) ->
  (exists t, In t (build_analyzer doc) /\ In t (vocabulary_ v)) ->
  sumsq (transform v doc) = 1.
Proof.
  intros H [t [Ht Hv]].
  destruct (fitted_idf_ge_1 _ _ H) as [Hlen Hidf].
  unfold transform, tfidf_row. apply normalize_unit. intros Hz.
  pose proof (proj1 (@tfidf_weights_zero _ _ (build_analyzer doc) Hlen Hidf) Hz) as Hno.
  now apply (Hno t).
Qed.

(** The query that analyses to the tokens of document [i] scores exactly 1
    against it. *)
Lemma self_similarity limit corpus (v : TfidfVectorizer R) M i doc text :
  fit_transform limit corpus = inr (v, M) ->
  nth_error corpus i = Some doc ->
  (exists t, In t (build_analyzer doc) /\ In t (vocabulary_ v)) ->
  build_analyzer text = build_analyzer doc ->
  nth_error (cosine_similarity (transform v text) M) i = Some 1.
Proof.
  intros H Hi Hv Htext.
  assert (Hunit : sumsq (transform v doc) = 1)
    by (eapply fitted_row_unit; eassumption).
  apply fit_transform_inv in H. destruct H as (_ & _ & ->).
  unfold cosine_similarity. rewrite map_map.
  erewrite map_nth_error by exact Hi. f_equal.
  assert (E : transform v text = transform v doc)
    by (unfold transform; now rewrite Htext).
  rewrite E, dot_exact, normalize_of_unit by assumption.
  now rewrite dotR_self.
Qed.

Lemma load_inv rows (st : @engine R) :
  load_data_and_model (Some rows) = inr (Some st) ->
  df st = rows /\
  fit_transform max_features (map cut_content rows) =
    inr (vectorizer st, tfidf_matrix st).
Proof.
  unfold load_data_and_model. intros H.
  destruct (fit_transform max_features (map cut_content rows))
    as [e|[v m]]; [discriminate|].
  injection H as <-. now split.
Qed.

End ScoreFacts.

(** ** Searches that find nothing, and what a load returns *)

Lemma rank_all_below {num : Type} {ar : Arith num} {srt : Argsort}
    (a : list num) :
  Forall (fun s => fltb s relevance_floor = true) a -> rank a = [].
Proof.
  intros H. destruct (rank a) as [|p l] eqn:E; [reflexivity|].
  assert (Hp : In p (rank a)) by (rewrite E; now left).
  pose proof (rank_not_below _ _ Hp) as Hn.
  apply rank_In in Hp. destruct p as [i x]. apply in_combine_r in Hp.
  rewrite Forall_forall in H. simpl in Hn. rewrite (H _ Hp) in Hn.
  discriminate.
Qed.

Lemma zero_below_floor : Rltb 0 (@relevance_floor R exact) = true.
Proof. rewrite relevance_floor_exact. apply Rltb_true. lra. Qed.

Section LoadFacts.
Context {srt : Argsort} {tok : Tokenizer}.

(** A load that succeeds returns the engine of its rows. *)
Lemma load_engine_of rows (st : @engine R) :
  load_data_and_model (Some rows) = inr (Some st) ->
  st = engine_of rows (vectorizer st).
Proof.
  intros H. apply load_inv in H. destruct H as [Hdf Hfit].
  apply fit_transform_inv in Hfit. destruct Hfit as (_ & _ & HM).
  destruct st as [d v m]. simpl in *. subst d m.
  unfold engine_of. now rewrite map_map.
Qed.

Lemma load_eq rows fs X :
  count_fit_transform max_features (map cut_content rows) = inr (fs, X) ->
  load_data_and_model (Some rows) = inr (Some (fitted_engine rows fs X)).
Proof.
  intros E. unfold load_data_and_model.
  erewrite fit_transform_eq by exact E. reflexivity.
Qed.

(** The loader raises exactly when no document has a token. *)
Lemma load_raises rows :
  count_vocab (map build_analyzer (map cut_content rows)) = [] ->
  load_data_and_model (Some rows) =
  inl (ValueError "empty vocabulary; perhaps the documents only contain stop words").
Proof.
  intros H. unfold load_data_and_model, fit_transform.
  now rewrite count_fit_transform_empty.
Qed.

Lemma load_returns rows :
  count_vocab (map build_analyzer (map cut_content rows)) <> [] ->
  exists st, load_data_and_model (Some rows) = inr (Some st).
Proof.
  intros H.
  assert (Hl : 1 <= max_features) by (unfold max_features; apply Nat.leb_le; reflexivity).
  destruct (fit_transform_total _ Hl H) as [v [M E]].
  unfold load_data_and_model. rewrite E. eauto.
Qed.

End LoadFacts.

(** ** The steps in the order the specification states them *)

Section StatedSteps.
Context {srt : Argsort}.
Local Open Scope R_scope.

Lemma filter_perm {T : Type} (f : T -> bool) (l l' : list T) :
  Permutation l l' -> Permutation (filter f l) (filter f l').
Proof.
  induction 1 as [| x l l' H IH | x y l | l l' l'' H1 IH1 H2 IH2]; simpl.
  - constructor.
  - destruct (f x); [now constructor | assumption].
  - destruct (f x), (f y); try reflexivity. apply perm_swap.
  - now transitivity (filter f l').
Qed.

(** Two arrangements of the same numbers in non-increasing order are the
    same list. *)
Lemma descending_unique (k1 k2 : list R) :
  StronglySorted (fun x y => y <= x) k1 ->
  StronglySorted (fun x y => y <= x) k2 ->
  Permutation k1 k2 -> k1 = k2.
Proof.
  intros H1. revert k2.
  induction H1 as [|x k1 H1 IH Hx]; intros k2 H2 Hp.
  - now apply Permutation_nil in Hp.
  - destruct H2 as [|y k2 H2 Hy].
    + apply Permutation_sym, Permutation_nil in Hp. discriminate.
    + assert (Exy : x = y).
      { rewrite Forall_forall in Hx, Hy.
        assert (Hxy : x <= y).
        { assert (Hin : In x (y :: k2))
            by (eapply Permutation_in; [exact Hp | now left]).
          destruct Hin as [->|Hin]; [lra | now apply Hy]. }
        assert (Hyx : y <= x).
        { assert (Hin : In y (x :: k1))
            by (eapply Permutation_in; [symmetry; exact Hp | now left]).
          destruct Hin as [->|Hin]; [lra | now apply Hx]. }
        lra. }
      subst y. f_equal. apply IH; [assumption|].
      now apply Permutation_cons_inv in Hp.
Qed.

(** Two arrangements of the same pairs with the same scores in every
    position are the same list when no two pairs have the same score. *)
Lemma keyed_unique (l1 l2 : list (nat * R)) :
  map snd l1 = map snd l2 -> Permutation l1 l2 ->
  (forall p q, In p l1 -> In q l1 -> snd p = snd q -> p = q) -> l1 = l2.
Proof.
  revert l2. induction l1 as [|p l1 IH]; intros l2 Hk Hp Hinj.
  - now apply Permutation_nil in Hp.
  - destruct l2 as [|q l2]; [discriminate|].
    simpl in Hk. injection Hk as Hpq Hk.
    assert (Hq : In q (p :: l1))
      by (eapply Permutation_in; [symmetry; exact Hp | now left]).
    assert (E : p = q) by (apply Hinj; [now left | exact Hq | exact Hpq]).
    subst q. f_equal. apply IH; [assumption | |].
    + now apply Permutation_cons_inv in Hp.
    + intros r t Hr Ht. apply Hinj; now right.
Qed.

(** The documents whose score is not below the floor. *)
Let eligible (a : list R) : list (nat * R) :=
  filter not_below_floor (enumerate a).

(** The sort of step 3 leaves the scores in non-increasing order. *)
Lemma stated_sorted (l : list (nat * R)) :
  StronglySorted (fun p q : nat * R => snd q <= snd p)
                 (sort_by snd (fun x y => Rltb y x) l).
Proof.
  eapply StronglySorted_weaken;
    [|apply (sort_by_ascending snd (fun x y : R => Rltb y x))].
  - intros p q _ _ [H _]. now apply Rltb_false in H.
  - intros x y. rewrite Rltb_true, Rltb_false. lra.
  - intros x y z. rewrite !Rltb_false. lra.
Qed.

(** The stated steps leave the survivors in non-increasing order of
    score, and equal scores in ascending order of document id. *)
Lemma ranker_steps_order (a : list R) :
  StronglySorted
    (fun p q : nat * R =>
       snd q <= snd p /\ (snd p = snd q -> (fst p < fst q)%nat))
    (ranker_steps a).
Proof.
  assert (Hasym : forall x y : R, Rltb y x = true -> Rltb x y = false)
    by (intros x y; rewrite Rltb_true, Rltb_false; lra).
  assert (Htrans : forall x y z : R,
            Rltb x y = false -> Rltb y z = false -> Rltb x z = false)
    by (intros x y z; rewrite !Rltb_false; lra).
  unfold ranker_steps. apply StronglySorted_firstn.
  eapply StronglySorted_weaken;
    [|apply (@sort_by_stable _ _ snd (fun x y : R => Rltb y x) Hasym Htrans
               (fun p q : nat * R => (fst p < fst q)%nat));
      apply StronglySorted_filter, enumerate_sorted].
  intros p q _ _ [H1 H2]. apply Rltb_false in H1. split; [exact H1|].
  intros E. destruct H2 as [H2|H2]; [|exact H2].
  apply Rltb_true in H2. lra.
Qed.

Lemma shown_sorted (a : list R) :
  StronglySorted (fun p q : nat * R => snd q <= snd p)
    (filter not_below_floor (map (scored a) (rev (argsort Rltb a)))).
Proof.
  apply StronglySorted_filter.
  eapply StronglySorted_weaken;
    [|apply (@scored_rev_sorted R exact srt Rltb_asym Rleb_trans a)].
  intros p q _ _ H. change (Rltb (snd p) (snd q) = false) in H.
  now apply Rltb_false in H.
Qed.

Lemma shown_perm_stated (a : list R) :
  Permutation
    (filter not_below_floor (map (scored a) (rev (argsort Rltb a))))
    (sort_by snd (fun x y => Rltb y x) (eligible a)).
Proof.
  rewrite sort_by_perm. unfold eligible.
  apply filter_perm. apply (@scored_rev_perm R exact srt a).
Qed.

(** The script shows the scores the stated steps give, in the same
    order. *)
Lemma rank_scores_stated (a : list R) :
  map snd (rank a) = map snd (ranker_steps a).
Proof.
  rewrite (@rank_prefix R exact srt Rltb_asym Rleb_trans a).
  unfold ranker_steps. rewrite <- !firstn_map. f_equal.
  apply descending_unique.
  - apply StronglySorted_map, shown_sorted.
  - apply StronglySorted_map, stated_sorted.
  - apply Permutation_map, shown_perm_stated.
Qed.

(** With no two documents of the same score among those that are not
    below the floor, the script shows the list of the stated steps. *)
Lemma rank_stated (a : list R) :
  (forall i j s, nth_error a i = Some s -> nth_error a j = Some s ->
                 5 / 100 <= s -> i = j) ->
  rank a = ranker_steps a.
Proof.
  intros Hinj.
  rewrite (@rank_prefix R exact srt Rltb_asym Rleb_trans a).
  unfold ranker_steps. f_equal.
  apply keyed_unique.
  - apply descending_unique.
    + apply StronglySorted_map, shown_sorted.
    + apply StronglySorted_map, stated_sorted.
    + apply Permutation_map, shown_perm_stated.
  - apply shown_perm_stated.
  - intros [i x] [j y] Hp Hq E. simpl in E. subst y.
    apply filter_In in Hp, Hq. destruct Hp as [Hp Hx], Hq as [Hq _].
    assert (Hi : In (i, x) (enumerate a))
      by (eapply Permutation_in; [apply (@scored_rev_perm R exact srt a) | exact Hp]).
    assert (Hj : In (j, x) (enumerate a))
      by (eapply Permutation_in; [apply (@scored_rev_perm R exact srt a) | exact Hq]).
    apply enumerate_nth_error in Hi, Hj.
    f_equal. apply (Hinj i j x Hi Hj).
    unfold not_below_floor in Hx. apply negb_true_iff in Hx. cbn [snd] in Hx.
    rewrite relevance_floor_exact in Hx.
    change (Rltb x (5 / 100) = false) in Hx. now apply Rltb_false in Hx.
Qed.

End StatedSteps.

(** * Part III: the claims *)

Local Open Scope R_scope.

(** C1. For every query issued against an indexed corpus, the list of
    results has at most [top_k] = 10 entries and every score in it is at
    least the relevance floor 0.05. *)
Theorem search_bounded {srt : Argsort} {tok : Tokenizer}
    (st : @engine R) (search_btn : bool) (query : string) :
  (List.length (results (search_response st search_btn query)) <= 10)%nat /\
  forall idx score,
    In (idx, score) (results (search_response st search_btn query)) ->
    5 / 100 <= score.
Proof.
  unfold search_response.
  destruct (search_btn && negb (query =? "")%string); simpl.
  - split; [apply rank_length|].
    intros idx score H. apply rank_not_below in H. cbn [snd] in H.
    rewrite relevance_floor_exact in H.
    change (Rltb score (5 / 100) = false) in H. now apply Rltb_false in H.
  - split; [lia | intros idx score []].
Qed.

(** C2, as amended.  For every query the results are in non-increasing
    order of score.  The order of two results with equal scores is the one
    numpy's sort happens to leave, reversed: it is not fixed by the script,
    and it is not the ascending order of document id in general. *)
Theorem results_descending {srt : Argsort} {tok : Tokenizer}
    (st : @engine R) (search_btn : bool) (query : string) :
  StronglySorted (fun p q : nat * R => snd q <= snd p)
                 (results (search_response st search_btn query)).
Proof.
  unfold search_response.
  destruct (search_btn && negb (query =? "")%string); simpl; [|constructor].
  eapply StronglySorted_weaken;
    [|apply (@rank_sorted R exact srt Rltb_asym Rleb_trans)].
  intros p q _ _ H.
  change (Rltb (snd p) (snd q) = false) in H. now apply Rltb_false in H.
Qed.

(** C3. The idf weight of every vocabulary term [t] is
    [ln((1 + N) / (1 + df(t))) + 1], with [N] the number of documents and
    [df(t)] the number of documents that contain [t]; it is a field of the
    fitted vectorizer, computed by the fit. *)
Theorem idf_formula {srt : Argsort} {tok : Tokenizer}
    limit corpus (v : TfidfVectorizer R) M :
  fit_transform limit corpus = inr (v, M) ->
  forall j t, nth_error (vocabulary_ v) j = Some t ->
  nth_error (idf_ v) j =
  Some (ln ((1 + INR (List.length corpus)) /
            (1 + INR (docs_containing t (map build_analyzer corpus)))) + 1).
Proof.
  intros H j t Ht. apply fit_transform_inv in H. destruct H as (_ & -> & _).
  erewrite map_nth_error by exact Ht. unfold smooth_idf.
  rewrite plus_INR. simpl INR.
  now rewrite (Rplus_comm (INR (List.length corpus))), (Rplus_comm (INR _) 1).
Qed.

(** C4. Every row of the document-term matrix is the row of tf-idf weights
    of its document divided by their Euclidean norm, which makes it a unit
    row; when the norm is zero, which is when the document has no term of
    the vocabulary, the row is left all-zero.  The fit returns whenever some
    document has a token: a row of norm zero does not make it raise. *)
Theorem rows_l2_normalized {srt : Argsort} {tok : Tokenizer} limit corpus :
  (1 <= limit)%nat -> count_vocab (map build_analyzer corpus) <> [] ->
  exists (v : TfidfVectorizer R) M,
    fit_transform limit corpus = inr (v, M) /\
    forall i doc, nth_error corpus i = Some doc ->
    let weights :=
      tfidf_weights (idf_ v) (count_row (vocabulary_ v) (build_analyzer doc)) in
    exists row, nth_error M i = Some row /\
      (euclidean_norm weights = 0 <->
       forall t, In t (build_analyzer doc) -> ~ In t (vocabulary_ v)) /\
      (euclidean_norm weights = 0 ->
       row = weights /\ Forall (fun x => x = 0) row) /\
      (euclidean_norm weights <> 0 ->
       row = map (fun x => x / euclidean_norm weights) weights /\ sumsq row = 1).
Proof.
  intros Hl Hv. destruct (fit_transform_total corpus Hl Hv) as [v [M H]].
  exists v, M. split; [exact H|]. intros i doc Hi weights.
  destruct (fitted_idf_ge_1 _ _ H) as [Hlen Hidf].
  apply fit_transform_inv in H. destruct H as (_ & _ & ->).
  exists (normalize weights). split; [|split; [|split]].
  - erewrite map_nth_error by exact Hi. reflexivity.
  - rewrite euclidean_norm_zero. now apply tfidf_weights_zero.
  - intros Hz. apply euclidean_norm_zero in Hz.
    rewrite normalize_zero by assumption. split; [reflexivity|].
    now apply sumsq_zero.
  - intros Hz. rewrite euclidean_norm_zero in Hz. split.
    + now apply normalize_nonzero.
    + now apply normalize_unit.
Qed.

(** C5, as amended.  In exact arithmetic, for every indexed document with
    at least one vocabulary term, the query whose tokens are the tokens of
    the document scores exactly 1 against it, and no document scores more.
    (The binary64 scores carry rounding errors; there another document can
    score more.) *)
Theorem self_similarity_exact {srt : Argsort} {tok : Tokenizer} rows (st : @engine R) :
  load_data_and_model (Some rows) = inr (Some st) ->
  forall i row, nth_error rows i = Some row ->
  (exists t, In t (build_analyzer (cut_content row)) /\
             In t (vocabulary_ (vectorizer st))) ->
  forall query,
    build_analyzer (String.concat " " (jieba_lcut query)) =
    build_analyzer (cut_content row) ->
    nth_error (search st query) i = Some 1 /\
    Forall (fun score => score <= 1) (search st query).
Proof.
  intros H i row Hi Hv query Hq. apply load_inv in H. destruct H as [_ Hfit].
  split.
  - unfold search. eapply self_similarity; try eassumption.
    now apply map_nth_error.
  - apply cosine_similarity_le_1.
Qed.

(** C6. A query that is the empty string, or none of whose terms is in the
    vocabulary, ends the run with a page that shows no result; the run is
    not a crash. *)
Theorem no_overlap_no_results {srt : Argsort} {tok : Tokenizer}
    (c : cache) csv (st : @engine R) c' (search_btn : bool) (query : string) :
  cached_load c csv = (inr (Some st), c') ->
  query = EmptyString \/
  (forall t, In t (build_analyzer (String.concat " " (jieba_lcut query))) ->
             ~ In t (vocabulary_ (vectorizer st))) ->
  exists p, run_script c csv search_btn query = (Show p, c') /\ results p = [].
Proof.
  intros Hload Hq. unfold run_script. rewrite Hload.
  eexists. split; [reflexivity|].
  unfold search_response. destruct Hq as [->|Hq].
  - now rewrite andb_false_r.
  - destruct (search_btn && negb (query =? "")%string); [|reflexivity].
    simpl. apply rank_all_below. unfold search.
    pose proof (transform_no_overlap _ _ Hq) as Hz.
    apply (cosine_similarity_zero (tfidf_matrix st)) in Hz.
    eapply Forall_impl; [|exact Hz].
    intros s ->. apply zero_below_floor.
Qed.

(** C7, as amended.  The vocabulary of a fit holds at most [max_features]
    terms of the corpus, and a term that is kept occurs in the corpus at
    least as often as any term that is dropped.  Which of the terms that
    occur equally often are kept at the cut is the choice of numpy's sort,
    not the lexicographic order; the indices follow the ascending
    lexicographic order of the kept terms, not the order of selection. *)
Theorem vocabulary_selection {srt : Argsort} {tok : Tokenizer}
    limit corpus (v : TfidfVectorizer R) M :
  fit_transform limit corpus = inr (v, M) ->
  let docs := map build_analyzer corpus in
  (List.length (vocabulary_ v) <= limit)%nat /\
  StronglySorted (fun s t => String.ltb s t = true) (vocabulary_ v) /\
  (forall t, In t (vocabulary_ v) -> In t (List.concat docs)) /\
  (forall t u,
     In t (vocabulary_ v) -> In u (List.concat docs) -> ~ In u (vocabulary_ v) ->
     (corpus_frequency u docs <= corpus_frequency t docs)%nat).
Proof.
  intros H docs. apply fit_transform_inv in H. destruct H as (H & _ & _).
  apply count_fit_transform_inv in H. fold docs in H.
  destruct H as (_ & _ & Hfs & _).
  set (features := sort_features (count_vocab docs)) in *.
  set (kept := where_ _) in *.
  assert (Hin : forall t, In t features -> In t (List.concat docs)).
  { intros t Ht. unfold features in Ht. apply -> sort_features_In in Ht.
    now apply -> count_vocab_In in Ht. }
  assert (Hsorted : StronglySorted (fun s t => String.ltb s t = true) features)
    by apply sort_features_ascending, count_vocab_NoDup.
  pose proof (kept_bound features docs limit) as Hbound. fold kept in Hbound.
  rewrite Hfs. repeat split.
  - unfold select. rewrite length_map. now apply kept_length.
  - apply select_sorted; [assumption | apply where_sorted | assumption].
  - intros t Ht. apply select_In in Ht. destruct Ht as [j [Hj <-]].
    apply Hin, nth_In. rewrite Forall_forall in Hbound. now apply Hbound.
  - intros t u Ht Hu Hout. apply select_In in Ht. destruct Ht as [j [Hj <-]].
    assert (Huf : In u features)
      by (apply sort_features_In; now apply count_vocab_In).
    apply In_nth with (d := EmptyString) in Huf. destruct Huf as [j' [Hj' <-]].
    assert (Hn : ~ In j' kept).
    { intros Hk. apply Hout, select_In. eauto. }
    exact (@kept_dominates _ features docs limit Hin j j' Hj Hj' Hn).
Qed.

(** C8, as amended.  Loading a corpus in which no document has a token,
    an empty corpus among them, raises [ValueError] (the script has no
    [EmptyCorpusError]): the run is a crash and nothing is cached.  An
    engine that is cached stays cached: every later run searches it without
    running the loader, whatever the file holds then.  A load can only raise
    while nothing is cached.  A missing file does not raise: the loader
    returns [None, None, None], which is cached, and the run stops. *)
Theorem failed_load_caches_nothing {srt : Argsort} {tok : Tokenizer}
    rows (search_btn : bool) (query : string) :
  count_vocab (map build_analyzer (map cut_content rows)) = [] ->
  run_script None (Some rows) search_btn query =
    (Crash (ValueError
       "empty vocabulary; perhaps the documents only contain stop words"),
     None) /\
  (forall st csv btn q,
     run_script (Some (Some st)) csv btn q =
     (Show (search_response st btn q), Some (Some st))) /\
  (forall c csv e, fst (cached_load c csv) = inl e ->
     c = None /\ snd (cached_load c csv) = None) /\
  (forall btn q, run_script None None btn q = (Stop, Some None)).
Proof.
  intros H. repeat split.
  - unfold run_script, cached_load. now rewrite load_raises.
  - destruct c as [v|]; [discriminate | reflexivity].
  - destruct c as [v|]; [discriminate|]. simpl in *.
    now destruct (load_data_and_model csv).
Qed.

(** C9, as amended.  For every query, the steps in the order the
    specification states them (discard below the floor, sort by descending
    score with equal scores by ascending document id, cut at [top_k]) give
    the scores the script shows, in the same order; they give the same list
    of documents when no two documents that are not below the floor have the
    same score.  Documents with equal scores can come in another order in
    the script, which sorts all documents with numpy's sort, cuts at
    [top_k] and then discards. *)
Theorem ranker_steps_agree {srt : Argsort} {tok : Tokenizer}
    (st : @engine R) (search_btn : bool) (query : string) :
  let shown := results (search_response st search_btn query) in
  let stated :=
    if search_btn && negb (query =? "")%string
    then ranker_steps (search st query) else [] in
  map snd shown = map snd stated /\
  ((forall i j s,
      nth_error (search st query) i = Some s ->
      nth_error (search st query) j = Some s -> 5 / 100 <= s -> i = j) ->
   shown = stated).
Proof.
  unfold search_response.
  destruct (search_btn && negb (query =? "")%string); simpl;
    [|split; reflexivity].
  split; [apply rank_scores_stated | apply rank_stated].
Qed.

(** C10, as amended.  In exact arithmetic every similarity score of a
    search lies in [0, 1]: the tf-idf weights are not negative and both rows
    are L2-normalised.  (In binary64 a score can exceed 1 by rounding.) *)
Theorem scores_in_unit_interval {srt : Argsort} {tok : Tokenizer}
    rows (st : @engine R) :
  load_data_and_model (Some rows) = inr (Some st) ->
  forall query, Forall (fun score => 0 <= score <= 1) (search st query).
Proof.
  intros H query. apply load_inv in H. destruct H as [_ Hfit].
  unfold search. eapply fitted_scores_bounds. exact Hfit.
Qed.

(** * Part IV: the claims on concrete corpora *)

Section SampleFits.
Context {srt : Argsort}.
#[local] Existing Instance ascii_tokenizer.

Lemma sample_count_fit :
  count_fit_transform max_features sample_corpus =
  inr (["cafeteria"; "deadline"; "exam"; "menu"; "scholarship"]%string,
       [[0; 0; 1; 0; 1]; [1; 0; 0; 1; 0]; [0; 1; 0; 0; 1]]%nat).
Proof. vm_compute. reflexivity. Qed.

Lemma twin_count_fit :
  count_fit_transform max_features (map cut_content twin_rows) =
  inr (["aa"; "bb"]%string, [[1; 1]; [1; 1]]%nat).
Proof. vm_compute. reflexivity. Qed.

Lemma single_count_fit :
  count_fit_transform max_features (map cut_content single_rows) =
  inr (["aa"; "bb"; "cc"]%string, [[1; 1; 1]]%nat).
Proof. vm_compute. reflexivity. Qed.

Lemma repeated_count_fit :
  count_fit_transform max_features (map cut_content repeated_rows) =
  inr (["aa"; "bb"; "cc"]%string, [[1; 2; 3]; [5; 10; 15]]%nat).
Proof. vm_compute. reflexivity. Qed.

Lemma sample_load : load_data_and_model (Some sample_rows) = inr (Some sample_engine).
Proof. apply load_eq, sample_count_fit. Qed.

Lemma two_entries {T : Type} (l : list T) a b :
  List.length l = 2%nat -> nth_error l 0 = Some a -> nth_error l 1 = Some b ->
  l = [a; b].
Proof.
  destruct l as [|x [|y [|z l]]]; simpl; try discriminate.
  intros _ Ha Hb. now injection Ha as ->; injection Hb as ->.
Qed.

Lemma one_not_below_floor : Rltb 1 (@relevance_floor R exact) = false.
Proof. rewrite relevance_floor_exact. apply Rltb_false. lra. Qed.

(** A term that is in every document weighs [ln 1 + 1]. *)
Lemma smooth_idf_full n : smooth_idf n n = INR 1.
Proof.
  unfold smooth_idf. rewrite plus_INR. simpl INR.
  replace ((INR n + 1) / (INR n + 1)) with 1
    by (field; pose proof (pos_INR n); lra).
  rewrite ln_1. lra.
Qed.

(** When every term is in every document, the load returns the engine of
    the rows over the idf table of ones. *)
Lemma load_unit rows fs X :
  count_fit_transform max_features (map cut_content rows) = inr (fs, X) ->
  document_frequency X (List.length fs) = map (fun _ => List.length X) fs ->
  load_data_and_model (Some rows) =
  inr (Some (engine_of (ar := exact) rows (unit_vectorizer fs))).
Proof.
  intros E Hdf. pose proof (load_eq _ E) as Hload.
  rewrite Hload. do 2 f_equal.
  rewrite (load_engine_of _ Hload). f_equal.
  unfold fitted_engine, unit_vectorizer. simpl. f_equal.
  unfold fit_idf. rewrite Hdf, map_map.
  apply map_ext. intros _. apply smooth_idf_full.
Qed.

(** Two documents with the same text, searched with that text, both score
    1. *)
Lemma twin_load :
  load_data_and_model (Some twin_rows) =
  inr (Some (fitted_engine twin_rows ["aa"; "bb"]%string [[1; 1]; [1; 1]]%nat)).
Proof. apply load_eq, twin_count_fit. Qed.

Lemma twin_scores :
  search (fitted_engine twin_rows ["aa"; "bb"]%string [[1; 1]; [1; 1]]%nat)
         "aa bb" = [1; 1].
Proof.
  destruct (load_inv _ twin_load) as [_ Hfit].
  apply two_entries.
  - reflexivity.
  - unfold search.
    eapply self_similarity; [exact Hfit | reflexivity | | reflexivity].
    exists "aa"%string. split; simpl; auto.
  - unfold search.
    eapply self_similarity; [exact Hfit | reflexivity | | reflexivity].
    exists "aa"%string. split; simpl; auto.
Qed.

End SampleFits.

(** The order of two equal scores under the two sorts, and under the
    stated steps. *)
Lemma rank_twins_stable :
  rank (ar := exact) (srt := numpy_stable) [1; 1] = [(1%nat, 1); (0%nat, 1)].
Proof.
  cbv [rank argsort numpy_stable stable_argsort enumerate top_k List.length
       seq combine sort_by insert_by map fst snd rev app firstn show_results
       nth].
  change (@fltb R exact) with Rltb.
  rewrite (proj2 (Rltb_false 1 1)) by lra.
  now rewrite one_not_below_floor.
Qed.

Lemma rank_twins_reversed :
  rank (ar := exact) (srt := numpy_reversed_ties) [1; 1] =
  [(0%nat, 1); (1%nat, 1)].
Proof.
  cbv [rank argsort numpy_reversed_ties reversed_ties_argsort enumerate top_k
       List.length seq combine sort_by insert_by map fst snd rev app firstn
       show_results nth].
  change (@fltb R exact) with Rltb.
  rewrite (proj2 (Rltb_false 1 1)) by lra.
  now rewrite one_not_below_floor.
Qed.

Lemma ranker_steps_twins :
  ranker_steps (ar := exact) [1; 1] = [(0%nat, 1); (1%nat, 1)].
Proof.
  cbv [ranker_steps enumerate List.length seq combine filter snd].
  change (@fltb R exact) with Rltb.
  rewrite one_not_below_floor.
  cbv [negb sort_by insert_by snd top_k firstn].
  now rewrite (proj2 (Rltb_false 1 1)) by lra.
Qed.

Section Runs.
#[local] Existing Instance numpy_stable.
#[local] Existing Instance ascii_tokenizer.

Lemma sample_count_fit_1 :
  count_fit_transform 1 sample_corpus =
  inr (["scholarship"]%string, [[1]; [0]; [1]]%nat).
Proof. vm_compute. reflexivity. Qed.

(** C2, counterexample.  Two documents with the same text, searched with
    that text, both score 1.  With a sort that leaves equal values in the
    order they come in, as numpy's does where it sorts a short array by
    insertion, the script shows document 1 before document 0; with a sort
    that leaves them the other way round it shows document 0 first. *)
Lemma equal_scores_either_order :
  exists st,
    load_data_and_model (Some twin_rows) = inr (Some st) /\
    results (search_response (srt := numpy_stable) st true "aa bb") =
      [(1%nat, 1); (0%nat, 1)] /\
    results (search_response (srt := numpy_reversed_ties) st true "aa bb") =
      [(0%nat, 1); (1%nat, 1)].
Proof.
  exists (fitted_engine twin_rows ["aa"; "bb"]%string [[1; 1]; [1; 1]]%nat).
  split; [exact twin_load|]. split.
  - change (rank (srt := numpy_stable)
              (search (fitted_engine twin_rows ["aa"; "bb"]%string
                         [[1; 1]; [1; 1]]%nat) "aa bb") =
            [(1%nat, 1); (0%nat, 1)]).
    rewrite twin_scores. exact rank_twins_stable.
  - change (rank (srt := numpy_reversed_ties)
              (search (fitted_engine twin_rows ["aa"; "bb"]%string
                         [[1; 1]; [1; 1]]%nat) "aa bb") =
            [(0%nat, 1); (1%nat, 1)]).
    rewrite twin_scores. exact rank_twins_reversed.
Qed.

(** C3, witness: the weight of "scholarship", in 2 of the 3 sample
    documents. *)
Lemma idf_formula_witness :
  nth_error (vocabulary_ (vectorizer sample_engine)) 4 =
    Some "scholarship"%string /\
  nth_error (idf_ (vectorizer sample_engine)) 4 =
    Some (ln ((1 + INR 3) / (1 + INR 2)) + 1).
Proof.
  split; [reflexivity|].
  exact (@idf_formula numpy_stable ascii_tokenizer max_features sample_corpus
           (vectorizer sample_engine) _
           (fit_transform_eq max_features sample_corpus sample_count_fit)
           4 "scholarship"%string eq_refl).
Defined.

(** C4, witness: the sample corpus under a cap of one term.  The
    vocabulary is then "scholarship", and "cafeteria menu" has no term of
    it. *)
Lemma rows_l2_normalized_witness :
  (1 <= 1)%nat /\ count_vocab (map build_analyzer sample_corpus) <> [] /\
  exists (v : TfidfVectorizer R) M,
    fit_transform 1 sample_corpus = inr (v, M) /\
    forall i doc, nth_error sample_corpus i = Some doc ->
    let weights :=
      tfidf_weights (idf_ v) (count_row (vocabulary_ v) (build_analyzer doc)) in
    exists row, nth_error M i = Some row /\
      (euclidean_norm weights = 0 <->
       forall t, In t (build_analyzer doc) -> ~ In t (vocabulary_ v)) /\
      (euclidean_norm weights = 0 ->
       row = weights /\ Forall (fun x => x = 0) row) /\
      (euclidean_norm weights <> 0 ->
       row = map (fun x => x / euclidean_norm weights) weights /\ sumsq row = 1).
Proof.
  assert (Hv : count_vocab (map build_analyzer sample_corpus) <> [])
    by (vm_compute; discriminate).
  split; [apply le_n|]. split; [exact Hv|].
  exact (@rows_l2_normalized numpy_stable ascii_tokenizer 1 sample_corpus (le_n 1) Hv).
Defined.

(** C5, witness: the sample corpus searched with the text of document 0. *)
Lemma self_similarity_exact_witness :
  load_data_and_model (Some sample_rows) = inr (Some sample_engine) /\
  nth_error (search sample_engine "scholarship exam") 0 = Some 1 /\
  Forall (fun score => score <= 1) (search sample_engine "scholarship exam").
Proof.
  split; [exact sample_load|].
  apply (@self_similarity_exact numpy_stable ascii_tokenizer sample_rows sample_engine
           sample_load 0 (article "a0" "scholarship exam") eq_refl).
  - exists "exam"%string. split; vm_compute; auto.
  - reflexivity.
Defined.

(** C5, counterexample.  The corpus holds a document and the document that
    repeats it five times; every term is in both, so the idf table is all
    ones.  Searched in binary64 with the text of document 0, document 0
    scores 1.0 and document 1 scores the next float above 1.0: the score of
    the queried document is not the maximum. *)
Lemma binary64_self_not_maximal :
  load_data_and_model (Some repeated_rows) =
    inr (Some (engine_of (ar := exact) repeated_rows
                 (unit_vectorizer ["aa"; "bb"; "cc"]%string))) /\
  search (ar := binary64)
    (engine_of repeated_rows (unit_vectorizer ["aa"; "bb"; "cc"]%string))
    "aa bb bb cc cc cc" =
  [PrimFloat.one; PrimFloat.next_up PrimFloat.one] /\
  PrimFloat.ltb PrimFloat.one (PrimFloat.next_up PrimFloat.one) = true.
Proof.
  split; [|split].
  - apply (load_unit _ repeated_count_fit). reflexivity.
  - vm_compute. reflexivity.
  - vm_compute. reflexivity.
Qed.

(** C6, witness: the sample corpus is loaded by this run and searched for a
    word that none of its documents has. *)
Lemma no_overlap_no_results_witness :
  cached_load None (Some sample_rows) =
    (inr (Some sample_engine), Some (Some sample_engine)) /\
  exists p,
    run_script None (Some sample_rows) true "library" =
      (Show p, Some (Some sample_engine)) /\
    results p = [].
Proof.
  assert (H : cached_load None (Some sample_rows) =
              (inr (Some sample_engine), Some (Some sample_engine)))
    by (unfold cached_load; now rewrite sample_load).
  split; [exact H|].
  apply (@no_overlap_no_results numpy_stable ascii_tokenizer None (Some sample_rows)
           sample_engine _ true "library" H).
  right. intros t Ht. vm_compute in Ht. destruct Ht as [<-|[]].
  cbv [sample_engine fitted_engine vectorizer vocabulary_ In].
  intuition discriminate.
Defined.

(** C7, witness: the sample corpus under a cap of one term.
    "scholarship" occurs twice and is kept; the four other terms occur
    once. *)
Lemma vocabulary_selection_witness :
  let v := {| vocabulary_ := ["scholarship"]%string;
              idf_ := fit_idf [[1]; [0]; [1]]%nat 1 |} in
  let M := map (tfidf_row (idf_ v)) [[1]; [0]; [1]]%nat in
  let docs := map build_analyzer sample_corpus in
  fit_transform 1 sample_corpus = inr (v, M) /\
  (List.length (vocabulary_ v) <= 1)%nat /\
  StronglySorted (fun s t => String.ltb s t = true) (vocabulary_ v) /\
  (forall t, In t (vocabulary_ v) -> In t (List.concat docs)) /\
  (forall t u,
     In t (vocabulary_ v) -> In u (List.concat docs) -> ~ In u (vocabulary_ v) ->
     (corpus_frequency u docs <= corpus_frequency t docs)%nat).
Proof.
  intros v M docs.
  split; [exact (fit_transform_eq 1 sample_corpus sample_count_fit_1)|].
  exact (@vocabulary_selection numpy_stable ascii_tokenizer 1 sample_corpus v M
           (fit_transform_eq 1 sample_corpus sample_count_fit_1)).
Defined.

(** C7, counterexample.  In the one-document corpus "bb bb aa" the term
    "bb" occurs twice and "aa" once; selection by descending frequency would
    number "bb" first, and the vocabulary gives index 0 to "aa".  And under
    a cap of 3 terms the sample corpus keeps "scholarship", which occurs
    twice, and two of the four terms that occur once; with a sort that
    leaves equal values by descending position these are "exam" and "menu",
    and "cafeteria", which comes before both in lexicographic order, is
    dropped. *)
Lemma vocabulary_not_in_selection_order :
  (let docs := map build_analyzer ["bb bb aa"%string] in
   exists (v : TfidfVectorizer R) M,
     fit_transform max_features ["bb bb aa"%string] = inr (v, M) /\
     vocabulary_ v = ["aa"; "bb"]%string /\
     (corpus_frequency "aa" docs < corpus_frequency "bb" docs)%nat) /\
  (let docs := map build_analyzer sample_corpus in
   exists (v : TfidfVectorizer R) M,
     fit_transform (srt := numpy_reversed_ties) 3 sample_corpus = inr (v, M) /\
     vocabulary_ v = ["exam"; "menu"; "scholarship"]%string /\
     corpus_frequency "cafeteria" docs = corpus_frequency "exam" docs /\
     String.ltb "cafeteria" "exam" = true).
Proof.
  split.
  - intros docs.
    assert (E : count_fit_transform max_features ["bb bb aa"%string] =
                inr (["aa"; "bb"]%string, [[1; 2]]%nat))
      by (vm_compute; reflexivity).
    eexists. eexists. split; [exact (fit_transform_eq _ _ E)|].
    split; [reflexivity|]. vm_compute. lia.
  - intros docs.
    assert (E : count_fit_transform (srt := numpy_reversed_ties) 3
                  sample_corpus =
                inr (["exam"; "menu"; "scholarship"]%string,
                     [[1; 0; 1]; [0; 1; 0]; [0; 0; 1]]%nat))
      by (vm_compute; reflexivity).
    eexists. eexists.
    split; [exact (fit_transform_eq (srt := numpy_reversed_ties) _ _ E)|].
    split; [reflexivity|]. split; vm_compute; reflexivity.
Qed.

(** C8, witness: the empty corpus. *)
Lemma failed_load_caches_nothing_witness :
  count_vocab (map build_analyzer (map cut_content [])) = [] /\
  run_script None (Some []) true "exam" =
    (Crash (ValueError
       "empty vocabulary; perhaps the documents only contain stop words"),
     None).
Proof.
  split; [reflexivity|].
  exact (proj1 (@failed_load_caches_nothing numpy_stable ascii_tokenizer [] true "exam"
                  eq_refl)).
Defined.

(** C8, counterexample.  Loading the empty corpus raises an exception of
    class [ValueError], not [EmptyCorpusError]. *)
Lemma empty_corpus_raises_ValueError :
  exists e,
    load_data_and_model (Some []) = inl e /\
    exc_type e = "ValueError"%string /\
    exc_type e <> "EmptyCorpusError"%string.
Proof.
  eexists. split; [apply load_raises; reflexivity|].
  split; [reflexivity | discriminate].
Qed.

(** C9, counterexample.  Two documents with the same text, searched with
    that text, both score 1.  The stated steps put document 0 first; with a
    sort that leaves equal values in the order they come in, the script
    shows document 1 first. *)
Lemma tied_documents_other_order :
  exists st,
    load_data_and_model (Some twin_rows) = inr (Some st) /\
    results (search_response (srt := numpy_stable) st true "aa bb") =
      [(1%nat, 1); (0%nat, 1)] /\
    ranker_steps (search st "aa bb") = [(0%nat, 1); (1%nat, 1)].
Proof.
  exists (fitted_engine twin_rows ["aa"; "bb"]%string [[1; 1]; [1; 1]]%nat).
  split; [exact twin_load|]. split.
  - change (rank (srt := numpy_stable)
              (search (fitted_engine twin_rows ["aa"; "bb"]%string
                         [[1; 1]; [1; 1]]%nat) "aa bb") =
            [(1%nat, 1); (0%nat, 1)]).
    rewrite twin_scores. exact rank_twins_stable.
  - rewrite twin_scores. exact ranker_steps_twins.
Qed.

(** C10, witness: the sample corpus searched for "scholarship". *)
Lemma scores_in_unit_interval_witness :
  load_data_and_model (Some sample_rows) = inr (Some sample_engine) /\
  Forall (fun score => 0 <= score <= 1) (search sample_engine "scholarship").
Proof.
  split; [exact sample_load|].
  exact (@scores_in_unit_interval numpy_stable ascii_tokenizer sample_rows sample_engine
           sample_load "scholarship").
Defined.

(** C10, counterexample.  A corpus of one document of three terms has the
    idf table of ones.  Searched in binary64 with the text of the document,
    the similarity score is the next float above 1.0. *)
Lemma binary64_score_above_one :
  load_data_and_model (Some single_rows) =
    inr (Some (engine_of (ar := exact) single_rows
                 (unit_vectorizer ["aa"; "bb"; "cc"]%string))) /\
  search (ar := binary64)
    (engine_of single_rows (unit_vectorizer ["aa"; "bb"; "cc"]%string))
    "aa bb cc" =
  [PrimFloat.next_up PrimFloat.one] /\
  PrimFloat.ltb PrimFloat.one (PrimFloat.next_up PrimFloat.one) = true.
Proof.
  split; [|split].
  - apply (load_unit _ single_count_fit). reflexivity.
  - vm_compute. reflexivity.
  - vm_compute. reflexivity.
Qed.

End Runs.

(** * Part V: further properties of the script *)

Local Close Scope R_scope.

(** ** The loop over the sorted indices *)

Section LoopFacts.
Context {num : Type} {ar : Arith num} {srt : Argsort}.

(** The indices the loop shows are the indices it is given, without those
    whose score is below the floor. *)
Lemma show_results_indices (a : list num) (l : list nat) :
  map fst (show_results a l) =
  filter (fun idx => negb (fltb (nth idx a fzero) relevance_floor)) l.
Proof.
  induction l as [|idx l IH]; simpl; [reflexivity|].
  destruct (fltb (nth idx a fzero) relevance_floor); simpl; now rewrite IH.
Qed.

Lemma show_results_In (a : list num) (l : list nat) idx score :
  In (idx, score) (show_results a l) ->
  In idx l /\ score = nth idx a fzero /\ fltb score relevance_floor = false.
Proof.
  induction l as [|k l IH]; simpl; [intros []|].
  destruct (fltb (nth k a fzero) relevance_floor) eqn:E.
  - intros H. apply IH in H. tauto.
  - intros [H|H].
    + injection H as <- <-. auto.
    + apply IH in H. tauto.
Qed.

Lemma sorted_indices_NoDup (a : list num) :
  NoDup (firstn top_k (rev (argsort fltb a))).
Proof.
  assert (H : NoDup (rev (argsort fltb a))) by apply NoDup_rev, argsort_NoDup.
  rewrite <- (firstn_skipn top_k) in H. now apply NoDup_app_remove_r in H.
Qed.

Lemma sorted_indices_bound (a : list num) idx :
  In idx (firstn top_k (rev (argsort fltb a))) -> idx < List.length a.
Proof.
  intros H. apply In_firstn in H. apply in_rev in H. now apply argsort_In in H.
Qed.

(** While every index is a row of [df], the loop renders the card of every
    index it shows and counts them. *)
Lemma render_results_shown (rows : list news) (a : list num) (l : list nat) n :
  Forall (fun idx => idx < List.length rows) l ->
  exists shown,
    render_results rows a l n =
      (shown, inr (n + List.length (show_results a l))) /\
    Forall2 (fun c r => exists row,
               nth_error rows (fst r) = Some row /\
               heading c = card_heading row /\
               progress c = snd r /\
               caption c = content_preview row)
            shown (show_results a l).
Proof.
  intros H. revert n. induction H as [|idx l Hidx Hl IH]; intros n; simpl.
  - exists []. split; [now rewrite Nat.add_0_r | constructor].
  - destruct (fltb (nth idx a fzero) relevance_floor) eqn:E; [apply IH|].
    unfold iloc. destruct (nth_error rows idx) as [row|] eqn:Hrow.
    + destruct (IH (S n)) as [shown [-> HF]].
      eexists. split.
      * simpl. do 2 f_equal. lia.
      * constructor; [|exact HF]. exists row. simpl. auto.
    + apply nth_error_None in Hrow. lia.
Qed.

End LoopFacts.

Lemma search_length {num : Type} {ar : Arith num} {tok : Tokenizer}
    (st : @engine num) query :
  List.length (search st query) = List.length (tfidf_matrix st).
Proof. unfold search, cosine_similarity. apply length_map. Qed.

(** ** What the loader returns *)

Lemma NoDup_firstn {T : Type} n (l : list T) : NoDup l -> NoDup (firstn n l).
Proof.
  intros H. rewrite <- (firstn_skipn n l) in H.
  now apply NoDup_app_remove_r in H.
Qed.

Lemma StronglySorted_NoDup {T : Type} (rel : T -> T -> Prop) (l : list T) :
  (forall x, ~ rel x x) -> StronglySorted rel l -> NoDup l.
Proof.
  intros Hirr. induction 1 as [|x l H IH Hx]; constructor; [|assumption].
  intros Hin. rewrite Forall_forall in Hx. now apply (Hirr x), Hx.
Qed.

(** The number of columns [_limit_features] keeps. *)
Lemma kept_count {srt : Argsort} (features : list string) (docs : list (list string))
    (limit : nat) :
  (forall t, In t features -> In t (List.concat docs)) ->
  List.length
    (where_ (limit_mask (count_matrix features docs) (List.length features)
                        (List.length docs) 1 limit)) =
  Nat.min limit (List.length features).
Proof.
  intros Hin. destruct (limit <? List.length features) eqn:E.
  - set (order := argsort Z.ltb
                    (map (fun j => Z.opp (Z.of_nat
                            (corpus_frequency (nth j features EmptyString) docs)))
                         (seq 0 (List.length features)))).
    assert (Hperm : Permutation
              (where_ (limit_mask (count_matrix features docs)
                         (List.length features) (List.length docs) 1 limit))
              (firstn limit order)).
    { apply NoDup_Permutation.
      - apply where_NoDup.
      - apply NoDup_firstn, argsort_NoDup.
      - intros j. now apply kept_In_limited. }
    rewrite (Permutation_length Hperm), length_firstn.
    unfold order. rewrite (Permutation_length (argsort_perm _ _)).
    now rewrite length_seq, length_map, length_seq.
  - rewrite kept_all by assumption. rewrite length_seq.
    apply Nat.ltb_ge in E. lia.
Qed.

Section VocabularyFacts.
Context {srt : Argsort} {tok : Tokenizer}.

(** The vocabulary of a fit that returned. *)
Lemma fitted_vocabulary limit corpus fs X :
  count_fit_transform limit corpus = inr (fs, X) ->
  let docs := map build_analyzer corpus in
  fs <> [] /\
  List.length fs = Nat.min limit (List.length (count_vocab docs)) /\
  StronglySorted (fun s t => String.ltb s t = true) fs /\
  (forall t, In t fs -> In t (List.concat docs)) /\
  (List.length (count_vocab docs) <= limit ->
   fs = sort_features (count_vocab docs)).
Proof.
  intros H docs. apply count_fit_transform_inv in H. fold docs in H.
  destruct H as (_ & Hkept & Hfs & _).
  set (features := sort_features (count_vocab docs)) in *.
  set (kept := where_ _) in *.
  assert (Hin : forall t, In t features -> In t (List.concat docs)).
  { intros t Ht. unfold features in Ht. apply -> sort_features_In in Ht.
    now apply -> count_vocab_In in Ht. }
  assert (Hn : List.length features = List.length (count_vocab docs)).
  { unfold features. apply Permutation_length, sort_features_perm. }
  pose proof (kept_bound features docs limit) as Hbound. fold kept in Hbound.
  split; [|split; [|split; [|split]]].
  - rewrite Hfs. destruct kept; [contradiction | discriminate].
  - rewrite Hfs. unfold select. rewrite length_map. unfold kept.
    rewrite kept_count by assumption. now rewrite Hn.
  - rewrite Hfs. apply select_sorted; [|apply where_sorted | assumption].
    apply sort_features_ascending, count_vocab_NoDup.
  - intros t Ht. rewrite Hfs in Ht. apply select_In in Ht.
    destruct Ht as [j [Hj <-]]. apply Hin, nth_In.
    rewrite Forall_forall in Hbound. now apply Hbound.
  - intros Hle. rewrite Hfs. unfold kept. rewrite kept_all.
    + apply select_seq.
    + assumption.
    + apply Nat.ltb_ge. now rewrite Hn.
Qed.

Lemma normalize_length {num : Type} {ar : Arith num} (row : list num) :
  List.length (normalize row) = List.length row.
Proof.
  unfold normalize. destruct (feqb _ _); [reflexivity | apply length_map].
Qed.

Lemma transform_length {num : Type} {ar : Arith num}
    (v : TfidfVectorizer num) (text : string) :
  List.length (idf_ v) = List.length (vocabulary_ v) ->
  List.length (transform v text) = List.length (vocabulary_ v).
Proof.
  intros H. unfold transform, tfidf_row, tfidf_weights, count_row.
  rewrite normalize_length, length_map, length_combine, length_map. lia.
Qed.

End VocabularyFacts.

(** X1.  On a table of text cells that [pd.read_csv] has returned, the
    fit of line 30 can fail in one way only: the loader raises the
    [ValueError] of the empty vocabulary exactly when no row has a token (a
    table without rows among them), and returns an engine for every other
    table.  The two other errors of the fit, on the pruning bounds, cannot
    occur.  (The exceptions of [pd.read_csv] itself and of a column that is
    not text are outside the model.) *)
Theorem load_fails_only_without_tokens {srt : Argsort} {tok : Tokenizer}
    (rows : list news) :
  let vocabulary := count_vocab (map build_analyzer (map cut_content rows)) in
  let error := ValueError
    "empty vocabulary; perhaps the documents only contain stop words" in
  (vocabulary = [] -> load_data_and_model (Some rows) = inl error) /\
  (vocabulary <> [] ->
   exists st, load_data_and_model (Some rows) = inr (Some st)) /\
  (forall e, load_data_and_model (Some rows) = inl e ->
     e = error /\ vocabulary = []) /\
  load_data_and_model (Some rows) <> inr None.
Proof.
  intros vocabulary error.
  assert (Hl : 1 <= max_features)
    by (unfold max_features; apply Nat.leb_le; reflexivity).
  assert (Hret : vocabulary <> [] ->
            exists st, load_data_and_model (Some rows) = inr (Some st)).
  { intros Hv.
    destruct (fit_transform_total _ Hl Hv) as [v [M E]].
    unfold load_data_and_model. rewrite E. eauto. }
  split; [apply load_raises|]. split; [exact Hret|]. split.
  - intros e He. destruct vocabulary as [|t voc] eqn:Ev.
    + fold vocabulary in Ev. rewrite (load_raises _ Ev) in He.
      injection He as <-. now split.
    + destruct Hret as [st Hst]; [discriminate|]. congruence.
  - unfold load_data_and_model.
    destruct (fit_transform max_features (map cut_content rows)) as [e|[v m]];
      discriminate.
Qed.

(** X2.  The engine of a load that returned has the shapes the search relies
    on: the matrix has one row per row of [df] and one column per term of
    the vocabulary, the vocabulary has between 1 and [max_features] terms, all
    different, each with its idf weight, and every query is vectorised to a
    row of that width and scored against every document. *)
Theorem loaded_shapes {srt : Argsort} {tok : Tokenizer} rows (st : @engine R) :
  load_data_and_model (Some rows) = inr (Some st) ->
  let vocabulary := vocabulary_ (vectorizer st) in
  df st = rows /\
  List.length (tfidf_matrix st) = List.length rows /\
  1 <= List.length vocabulary <= max_features /\
  NoDup vocabulary /\
  List.length (idf_ (vectorizer st)) = List.length vocabulary /\
  Forall (fun row => List.length row = List.length vocabulary)
         (tfidf_matrix st) /\
  forall query,
    List.length (transform (vectorizer st) query) = List.length vocabulary /\
    List.length (search st query) = List.length rows.
Proof.
  intros H vocabulary. apply load_inv in H. destruct H as [Hdf Hfit].
  destruct (fitted_idf_ge_1 _ _ Hfit) as [Hlen _].
  destruct (fit_transform_inv _ _ Hfit) as (Hcount & _ & HM).
  destruct (fitted_vocabulary _ _ Hcount) as (Hne & Hsize & Hsorted & _ & _).
  fold vocabulary in Hne, Hsize, Hsorted, Hlen.
  assert (Hrows : List.length (tfidf_matrix st) = List.length rows)
    by (rewrite HM; now rewrite !length_map).
  split; [exact Hdf|]. split; [exact Hrows|].
  split; [|split; [|split; [|split]]].
  - split.
    + destruct vocabulary; [contradiction | simpl; lia].
    + rewrite Hsize. apply Nat.le_min_l.
  - apply (StronglySorted_NoDup (rel := fun s t => String.ltb s t = true));
      [|exact Hsorted].
    intros s Hs. rewrite string_ltb_irrefl in Hs. discriminate.
  - exact Hlen.
  - rewrite HM. apply Forall_forall. intros row Hrow.
    apply in_map_iff in Hrow. destruct Hrow as [doc [<- _]].
    now apply transform_length.
  - intros query. split; [now apply transform_length|].
    now rewrite search_length.
Qed.

(** X3.  The matrix row of a document is what [transform] gives for its
    text with the fitted vectorizer: the documents are vectorised at load
    time exactly as the queries are at search time, pruned terms
    included. *)
Theorem documents_vectorised_like_queries {srt : Argsort} {tok : Tokenizer}
    rows (st : @engine R) :
  load_data_and_model (Some rows) = inr (Some st) ->
  forall i row, nth_error rows i = Some row ->
  nth_error (tfidf_matrix st) i =
    Some (transform (vectorizer st) (cut_content row)) /\
  nth_error (df st) i = Some row.
Proof.
  intros H i row Hi. apply load_inv in H. destruct H as [Hdf Hfit].
  apply fit_transform_inv in Hfit. destruct Hfit as (_ & _ & HM).
  split; [|now rewrite Hdf].
  rewrite HM, map_map.
  now apply (map_nth_error (fun r => transform _ (cut_content r))).
Qed.

(** X4.  The vocabulary of a fit has as many terms as the corpus has
    different terms ([count_vocab] lists each of them once), up to
    [max_features]; while the corpus has no more than that, every term of
    the corpus is in the vocabulary and nothing is pruned. *)
Theorem vocabulary_size {srt : Argsort} {tok : Tokenizer}
    limit corpus (v : TfidfVectorizer R) M :
  fit_transform limit corpus = inr (v, M) ->
  let docs := map build_analyzer corpus in
  let terms := count_vocab docs in
  NoDup terms /\ (forall t, In t terms <-> In t (List.concat docs)) /\
  List.length (vocabulary_ v) = Nat.min limit (List.length terms) /\
  (List.length terms <= limit ->
   forall t, In t (vocabulary_ v) <-> In t (List.concat docs)).
Proof.
  intros H docs terms. destruct (fit_transform_inv _ _ H) as (Hcount & _ & _).
  destruct (fitted_vocabulary _ _ Hcount) as (_ & Hsize & _ & _ & Hall).
  fold docs in Hsize, Hall. fold terms in Hsize, Hall.
  split; [apply count_vocab_NoDup|]. split; [apply count_vocab_In|].
  split; [exact Hsize|].
  intros Hle t. rewrite (Hall Hle), sort_features_In. apply count_vocab_In.
Qed.

(** ** The order of the rows *)

Lemma docs_containing_perm t (docs docs' : list (list string)) :
  Permutation docs docs' -> docs_containing t docs = docs_containing t docs'.
Proof.
  unfold docs_containing.
  induction 1 as [|d l l' _ IH|d e l|l l' l'' _ IH1 _ IH2]; simpl.
  - reflexivity.
  - destruct (existsb (String.eqb t) d); simpl; now rewrite IH.
  - now destruct (existsb (String.eqb t) d), (existsb (String.eqb t) e).
  - now rewrite IH1.
Qed.

Lemma corpus_frequency_perm t (docs docs' : list (list string)) :
  Permutation docs docs' -> corpus_frequency t docs = corpus_frequency t docs'.
Proof.
  unfold corpus_frequency.
  induction 1 as [|d l l' _ IH|d e l|l l' l'' _ IH1 _ IH2]; simpl.
  - reflexivity.
  - now rewrite !count_occ_app, IH.
  - rewrite !count_occ_app. lia.
  - now rewrite IH1.
Qed.

Lemma count_vocab_perm (docs docs' : list (list string)) :
  Permutation docs docs' -> Permutation (count_vocab docs) (count_vocab docs').
Proof.
  intros H. apply NoDup_Permutation; try apply count_vocab_NoDup.
  intros t. rewrite !count_vocab_In, !in_concat.
  split; intros [doc [Hdoc Ht]]; exists doc; split; try assumption.
  - now apply (Permutation_in _ H).
  - now apply (Permutation_in _ (Permutation_sym H)).
Qed.

(** A list of terms has one ascending arrangement. *)
Lemma ascending_unique (l1 l2 : list string) :
  StronglySorted (fun s t => String.ltb s t = true) l1 ->
  StronglySorted (fun s t => String.ltb s t = true) l2 ->
  Permutation l1 l2 -> l1 = l2.
Proof.
  intros H1. revert l2.
  induction H1 as [|x l1 H1 IH Hx]; intros l2 H2 Hp.
  - apply Permutation_nil in Hp. now subst.
  - destruct H2 as [|y l2 H2 Hy].
    + apply Permutation_sym, Permutation_nil in Hp. discriminate.
    + rewrite Forall_forall in Hx, Hy.
      assert (E : x = y).
      { assert (Hxin : In x (y :: l2))
          by (apply (Permutation_in _ Hp); now left).
        assert (Hyin : In y (x :: l1))
          by (apply (Permutation_in _ (Permutation_sym Hp)); now left).
        destruct Hxin as [E|Hxin]; [now symmetry|].
        destruct Hyin as [E|Hyin]; [assumption|].
        apply Hy in Hxin. apply Hx in Hyin.
        rewrite (string_ltb_asym _ _ Hxin) in Hyin. discriminate. }
      subst y. f_equal. apply IH; [assumption|].
      now apply Permutation_cons_inv in Hp.
Qed.

Lemma sort_features_perm_eq (docs docs' : list (list string)) :
  Permutation docs docs' ->
  sort_features (count_vocab docs) = sort_features (count_vocab docs').
Proof.
  intros H. apply ascending_unique.
  - apply sort_features_ascending, count_vocab_NoDup.
  - apply sort_features_ascending, count_vocab_NoDup.
  - rewrite !sort_features_perm. now apply count_vocab_perm.
Qed.

(** [_limit_features] reads the count matrix through the document
    frequencies and the column sums only. *)
Lemma limit_mask_ext {srt : Argsort} (X X' : list (list nat)) n high low limit :
  document_frequency X n = document_frequency X' n ->
  column_sums X n = column_sums X' n ->
  limit_mask X n high low limit = limit_mask X' n high low limit.
Proof. intros Hd Hc. unfold limit_mask. now rewrite Hd, Hc. Qed.

Lemma limit_mask_perm {srt : Argsort}
    (features : list string) (docs docs' : list (list string))
    limit :
  Permutation docs docs' ->
  limit_mask (count_matrix features docs') (List.length features)
             (List.length docs') 1 limit =
  limit_mask (count_matrix features docs) (List.length features)
             (List.length docs) 1 limit.
Proof.
  intros H. rewrite <- (Permutation_length H). apply limit_mask_ext.
  - rewrite !document_frequency_count_matrix. apply map_ext. intros t.
    symmetry. now apply docs_containing_perm.
  - rewrite !column_sums_count_matrix. apply map_ext. intros t.
    symmetry. now apply corpus_frequency_perm.
Qed.

Section OrderFacts.
Context {srt : Argsort} {tok : Tokenizer}.

(** The fit of a corpus in another order returns the same vectorizer. *)
Lemma fit_transform_perm limit corpus corpus' (v : TfidfVectorizer R) M :
  Permutation corpus corpus' ->
  fit_transform limit corpus = inr (v, M) ->
  fit_transform limit corpus' = inr (v, map (transform v) corpus').
Proof.
  intros Hp H.
  assert (Hdocs : Permutation (map build_analyzer corpus)
                              (map build_analyzer corpus'))
    by now apply Permutation_map.
  destruct (fit_transform_inv _ _ H) as (Hcount & Hidf & _).
  destruct (count_fit_transform_inv _ _ Hcount) as (Hv & Hkept & Hfs & _).
  assert (Hl : 1 <= limit).
  { pose proof (@kept_length _
                  (sort_features (count_vocab (map build_analyzer corpus)))
                  (map build_analyzer corpus) limit) as Hk.
    destruct (where_ _) as [|k kept]; [contradiction|].
    simpl in Hk. apply Nat.le_trans with (S (List.length kept)); [lia|].
    apply Hk. intros t Ht. apply -> sort_features_In in Ht.
    now apply -> count_vocab_In in Ht. }
  assert (Hv' : count_vocab (map build_analyzer corpus') <> []).
  { intros Z. apply count_vocab_perm in Hdocs. rewrite Z in Hdocs.
    apply Permutation_sym, Permutation_nil in Hdocs. contradiction. }
  destruct (fit_transform_total corpus' Hl Hv') as [v' [M' H']].
  destruct (fit_transform_inv _ _ H') as (Hcount' & Hidf' & HM').
  destruct (count_fit_transform_inv _ _ Hcount') as (_ & _ & Hfs' & _).
  assert (Evoc : vocabulary_ v' = vocabulary_ v).
  { rewrite Hfs', Hfs. rewrite <- (sort_features_perm_eq Hdocs).
    now rewrite (limit_mask_perm _ limit Hdocs). }
  assert (Eidf : idf_ v' = idf_ v).
  { rewrite Hidf', Hidf, Evoc, <- (Permutation_length Hp).
    apply map_ext. intros t. now rewrite (docs_containing_perm t Hdocs). }
  assert (E : v' = v).
  { clear - Evoc Eidf. destruct v, v'. simpl in Evoc, Eidf. now subst. }
  rewrite H', HM', E. reflexivity.
Qed.

End OrderFacts.

(** X5.  The order of the rows of the file does not matter to the scores:
    loading the rows in another order gives the same vocabulary and the same
    idf table, and every row gets, for every query, the score it gets in the
    first order. *)
Theorem row_order_does_not_matter {srt : Argsort} {tok : Tokenizer}
    rows rows' (st : @engine R) :
  Permutation rows rows' ->
  load_data_and_model (Some rows) = inr (Some st) ->
  exists st',
    load_data_and_model (Some rows') = inr (Some st') /\
    df st' = rows' /\ vectorizer st' = vectorizer st /\
    forall query i j row,
      nth_error rows i = Some row -> nth_error rows' j = Some row ->
      nth_error (search st' query) j = nth_error (search st query) i.
Proof.
  intros Hp H. destruct (load_inv _ H) as [_ Hfit].
  pose proof (@fit_transform_perm _ _ _ _ _ _ _
                (Permutation_map cut_content Hp) Hfit) as Hfit'.
  exists {| df := rows'; vectorizer := vectorizer st;
            tfidf_matrix :=
              map (transform (vectorizer st)) (map cut_content rows') |}.
  split; [|split; [reflexivity|split; [reflexivity|]]].
  - unfold load_data_and_model. now rewrite Hfit'.
  - intros query i j row Hi Hj.
    destruct (fit_transform_inv _ _ Hfit) as (_ & _ & HM).
    unfold search, cosine_similarity. simpl. rewrite HM, !map_map.
    erewrite (map_nth_error _ j rows') by exact Hj.
    erewrite (map_nth_error _ i rows) by exact Hi. reflexivity.
Qed.

(** ** The idf table *)

Section IdfFacts.
Local Open Scope R_scope.

Lemma smooth_idf_antitone n d d' :
  (d <= d')%nat -> smooth_idf n d' <= smooth_idf n d.
Proof.
  intros H. unfold smooth_idf.
  assert (Hn : 0 < INR (n + 1)) by (apply lt_0_INR; lia).
  assert (Hd : 0 < INR d + 1) by (pose proof (pos_INR d); lra).
  assert (Hd' : INR d + 1 <= INR d' + 1) by (apply le_INR in H; lra).
  assert (Hq : INR (n + 1) / (INR d' + 1) <= INR (n + 1) / (INR d + 1)).
  { unfold Rdiv. apply Rmult_le_compat_l; [lra|].
    apply Rinv_le_contravar; assumption. }
  assert (Hpos : 0 < INR (n + 1) / (INR d' + 1)).
  { unfold Rdiv. apply Rmult_lt_0_compat; [assumption|].
    apply Rinv_0_lt_compat. lra. }
  destruct Hq as [Hq|Hq].
  - pose proof (ln_increasing _ _ Hpos Hq). lra.
  - rewrite Hq. lra.
Qed.

Lemma smooth_idf_strict n d d' :
  (d < d')%nat -> smooth_idf n d' < smooth_idf n d.
Proof.
  intros H. unfold smooth_idf.
  assert (Hn : 0 < INR (n + 1)) by (apply lt_0_INR; lia).
  assert (Hd : 0 < INR d + 1) by (pose proof (pos_INR d); lra).
  assert (Hd' : INR d + 1 < INR d' + 1) by (apply lt_INR in H; lra).
  assert (Hq : INR (n + 1) / (INR d' + 1) < INR (n + 1) / (INR d + 1)).
  { unfold Rdiv. apply Rmult_lt_compat_l; [lra|].
    apply Rinv_lt_contravar; [|assumption].
    apply Rmult_lt_0_compat; lra. }
  assert (Hpos : 0 < INR (n + 1) / (INR d' + 1)).
  { unfold Rdiv. apply Rmult_lt_0_compat; [assumption|].
    apply Rinv_0_lt_compat. lra. }
  pose proof (ln_increasing _ _ Hpos Hq). lra.
Qed.

End IdfFacts.

Local Open Scope R_scope.

(** X6.  Of two terms of the vocabulary, the one that fewer documents
    contain has the larger idf weight, and terms that equally many documents
    contain weigh the same; no weight is below 1, the weight of a term that
    every document contains, and none is above the weight of a term that
    one document contains. *)
Theorem rarer_terms_weigh_more {srt : Argsort} {tok : Tokenizer}
    limit corpus (v : TfidfVectorizer R) M :
  fit_transform limit corpus = inr (v, M) ->
  let docs := map build_analyzer corpus in
  forall j k t u wt wu,
    nth_error (vocabulary_ v) j = Some t -> nth_error (idf_ v) j = Some wt ->
    nth_error (vocabulary_ v) k = Some u -> nth_error (idf_ v) k = Some wu ->
    1 <= wt <= smooth_idf (List.length corpus) 1 /\
    (docs_containing t docs = List.length corpus -> wt = 1) /\
    ((docs_containing t docs < docs_containing u docs)%nat -> wu < wt) /\
    (docs_containing t docs = docs_containing u docs -> wu = wt).
Proof.
  intros H docs j k t u wt wu Ht Hwt Hu Hwu.
  apply fit_transform_inv in H. destruct H as (Hcount & Hidf & _).
  fold docs in Hidf.
  destruct (fitted_vocabulary _ _ Hcount) as (_ & _ & _ & Hin & _).
  fold docs in Hin.
  rewrite Hidf in Hwt, Hwu.
  erewrite map_nth_error in Hwt by exact Ht.
  erewrite map_nth_error in Hwu by exact Hu.
  injection Hwt as <-. injection Hwu as <-.
  split; [split|split; [|split]].
  - apply smooth_idf_ge_1. unfold docs.
    rewrite <- (length_map build_analyzer corpus). apply docs_containing_le.
  - apply smooth_idf_antitone, docs_containing_pos, Hin.
    eapply nth_error_In. exact Ht.
  - intros ->. unfold smooth_idf. rewrite plus_INR. simpl INR.
    replace ((INR (List.length corpus) + 1) / (INR (List.length corpus) + 1))
      with 1 by (field; pose proof (pos_INR (List.length corpus)); lra).
    rewrite ln_1. lra.
  - apply smooth_idf_strict.
  - now intros ->.
Qed.

Local Close Scope R_scope.

(** ** Reruns *)

Lemma session_cached {srt : Argsort} {tok : Tokenizer}
    (v : option (@engine R)) (events : list event) :
  session (Some v) events = (map (answer v) events, Some v).
Proof.
  induction events as [|e events IH]; simpl; [reflexivity|].
  unfold run_script. simpl. destruct v; rewrite IH; reflexivity.
Qed.

(** X7.  The loader runs until it first returns.  A run whose load raises
    ends in that exception and leaves the cache empty, so the next run
    loads again; what the first load that returns gives back, the engine or
    the triple of [None] for a missing file, answers that run and every
    later run, whatever the file holds by then, and stays in the cache. *)
Theorem first_load_is_kept {srt : Argsort} {tok : Tokenizer}
    (e : event) (later : list event) :
  session None (e :: later) =
  match load_data_and_model (file e) with
  | inl raised =>
      (Crash raised :: fst (session None later), snd (session None later))
  | inr v => (map (answer v) (e :: later), Some v)
  end.
Proof.
  simpl. unfold run_script, cached_load.
  destruct (load_data_and_model (file e)) as [raised|v].
  - now destruct (session None later).
  - destruct v; rewrite session_cached; reflexivity.
Qed.

(** ** The analyzer on ASCII text *)

Lemma chars_append (s1 s2 : string) :
  list_ascii_of_string (s1 ++ s2) =
  list_ascii_of_string s1 ++ list_ascii_of_string s2.
Proof. induction s1 as [|c s1 IH]; simpl; [reflexivity | now rewrite IH]. Qed.

Lemma lower_char_idem (c : ascii) : lower_char (lower_char c) = lower_char c.
Proof. destruct c as [[] [] [] [] [] [] [] []]; reflexivity. Qed.

Lemma lower_chars (s : string) (c : ascii) :
  In c (list_ascii_of_string (lower s)) -> lower_char c = c.
Proof.
  induction s as [|a s IH]; simpl; [intros []|].
  intros [<-|H]; [apply lower_char_idem | now apply IH].
Qed.

(** A segment is a run of characters that [word] accepts or a single
    character, and its characters are characters of the text. *)
Lemma segments_inv (word : ascii -> bool) (P : ascii -> Prop) (s cur w : string) :
  In w (segments word s cur) ->
  (forall c, In c (list_ascii_of_string cur) -> P c /\ word c = true) ->
  (forall c, In c (list_ascii_of_string s) -> P c) ->
  (forall c, In c (list_ascii_of_string w) -> P c) /\
  ((forall c, In c (list_ascii_of_string w) -> word c = true) \/
   exists c, w = String c EmptyString).
Proof.
  revert cur. induction s as [|a s IH]; intros cur Hw Hcur Hs; simpl in Hw.
  - destruct cur as [|b cur]; simpl in Hw; [destruct Hw|].
    destruct Hw as [<-|[]].
    split; [|left]; intros c Hc; now apply Hcur.
  - assert (Hs' : forall c, In c (list_ascii_of_string s) -> P c)
      by (intros c Hc; apply Hs; simpl; auto).
    destruct (word a) eqn:Ea.
    + apply (IH _ Hw); [|assumption].
      intros c Hc. rewrite chars_append in Hc. apply in_app_iff in Hc.
      destruct Hc as [Hc|[<-|[]]]; [now apply Hcur|].
      split; [apply Hs; simpl; auto | assumption].
    + apply in_app_iff in Hw. destruct Hw as [Hw|[<-|Hw]].
      * destruct cur as [|b cur]; simpl in Hw; [destruct Hw|].
        destruct Hw as [<-|[]].
        split; [|left]; intros c Hc; now apply Hcur.
      * split; [|right; eauto].
        intros c [<-|[]]. apply Hs. simpl. auto.
      * apply (IH _ Hw); [|assumption]. intros c [].
Qed.

(** X8.  On ASCII text every token of the analyzer has at least two
    characters, all of them letters, digits or underscores, and none an
    upper-case letter. *)
Theorem analyzer_tokens (text token : string) :
  In token (@build_analyzer ascii_tokenizer text) ->
  2 <= String.length token /\
  forall c, In c (list_ascii_of_string token) ->
    is_word_char c = true /\ lower_char c = c.
Proof.
  simpl. intros H. apply filter_In in H. destruct H as [Hseg Htok].
  apply (segments_inv is_word_char (fun c => lower_char c = c)) in Hseg.
  - destruct Hseg as [Hlow Hword]. split.
    + destruct token as [|a [|b token]]; simpl in *; try discriminate. lia.
    + intros c Hc. split; [|now apply Hlow].
      destruct Hword as [Hword|[a ->]]; [now apply Hword | discriminate].
  - intros c [].
  - apply lower_chars.
Qed.

(** X9.  On ASCII text a query of a single character has no token: the
    search it starts scores every document 0, shows no result and ends with
    the warning. *)
Theorem single_character_finds_nothing {srt : Argsort} (st : @engine R) (c : ascii) :
  Forall (fun score => score = 0%R)
         (search (tok := ascii_tokenizer) st (String c EmptyString)) /\
  search_response (tok := ascii_tokenizer) st true (String c EmptyString) =
  {| results := []; closing := Warning |}.
Proof.
  assert (Hq : @build_analyzer ascii_tokenizer
                 (String.concat " " (@jieba_lcut ascii_tokenizer
                                       (String c EmptyString))) = []).
  { cbn -[is_alnum_char is_word_char lower_char].
    destruct (is_alnum_char c); cbn -[is_alnum_char is_word_char lower_char];
      destruct (is_word_char (lower_char c)); reflexivity. }
  assert (Hz : Forall (fun score => score = 0%R)
                 (search (tok := ascii_tokenizer) st (String c EmptyString))).
  { unfold search. apply cosine_similarity_zero, transform_no_overlap.
    rewrite Hq. intros t []. }
  split; [exact Hz|].
  assert (Hrank : rank (search (tok := ascii_tokenizer) st (String c EmptyString))
                  = []).
  { apply rank_all_below. eapply Forall_impl; [|exact Hz].
    intros s ->. apply zero_below_floor. }
  unfold search_response. simpl andb. cbv iota. now rewrite Hrank.
Qed.

(** ** A query that repeats itself *)

Section RepeatFacts.
Local Open Scope R_scope.

Lemma sumsq_mult (row : list R) c :
  sumsq (map (fun x => c * x) row) = c * c * sumsq row.
Proof.
  induction row as [|x row IH]; simpl; [lra|]. rewrite IH. lra.
Qed.

(** A row and its positive multiples are normalised to the same row. *)
Lemma normalize_mult (row : list R) c :
  0 < c -> normalize (map (fun x => c * x) row) = normalize row.
Proof.
  intros Hc. destruct (Req_dec_T (sumsq row) 0) as [E|E].
  - assert (Hrow : map (fun x => c * x) row = row).
    { apply sumsq_zero in E. rewrite <- (map_id row) at 2.
      apply map_ext_in. intros x Hx. rewrite Forall_forall in E.
      rewrite (E x Hx). lra. }
    now rewrite Hrow.
  - assert (E' : sumsq (map (fun x => c * x) row) <> 0).
    { rewrite sumsq_mult. intros Z.
      apply Rmult_integral in Z. destruct Z as [Z|Z]; [|contradiction].
      apply Rmult_integral in Z. lra. }
    rewrite !normalize_nonzero by assumption. rewrite map_map.
    unfold euclidean_norm. rewrite sumsq_mult.
    pose proof (sumsq_nonneg row) as Hn.
    rewrite sqrt_mult by nra. rewrite sqrt_square by lra.
    assert (Hs : sqrt (sumsq row) <> 0).
    { intros Z. apply sqrt_eq_0 in Z; [contradiction | assumption]. }
    apply map_ext. intros x. field. split; [assumption | lra].
Qed.

Lemma tfidf_weights_mult (idf : list R) (counts : list nat) (k : nat) :
  tfidf_weights idf (map (Nat.mul k) counts) =
  map (fun x => INR k * x) (tfidf_weights idf counts).
Proof.
  unfold tfidf_weights. revert idf.
  induction counts as [|n counts IH]; intros [|w idf]; simpl; try reflexivity.
  rewrite IH. exact_ops. f_equal. rewrite mult_INR. lra.
Qed.

End RepeatFacts.

(** X11.  In exact arithmetic a query that repeats every word of another
    query the same number of times gets the same scores: only the
    proportions of the terms of a query matter. *)
Theorem repeated_query_same_scores {tok : Tokenizer}
    (st : @engine R) (query1 query2 : string) (k : nat) :
  (0 < k)%nat ->
  (forall t, In t (vocabulary_ (vectorizer st)) ->
     count_occ string_dec
       (build_analyzer (String.concat " " (jieba_lcut query2))) t =
     (k * count_occ string_dec
            (build_analyzer (String.concat " " (jieba_lcut query1))) t)%nat) ->
  search st query2 = search st query1.
Proof.
  intros Hk H. unfold search, transform, tfidf_row.
  assert (E : count_row (vocabulary_ (vectorizer st))
                (build_analyzer (String.concat " " (jieba_lcut query2))) =
              map (Nat.mul k)
                (count_row (vocabulary_ (vectorizer st))
                   (build_analyzer (String.concat " " (jieba_lcut query1))))).
  { unfold count_row. rewrite map_map. apply map_ext_in. exact H. }
  rewrite E, tfidf_weights_mult, normalize_mult; [reflexivity|].
  apply lt_INR in Hk. exact Hk.
Qed.

(** ** The score as a cosine *)

Section CosineFacts.
Context {srt : Argsort} {tok : Tokenizer}.
Local Open Scope R_scope.

Lemma dotR_scale (x y : list R) c d :
  dotR (map (fun a => a * c) x) (map (fun b => b * d) y) = c * d * dotR x y.
Proof.
  revert y. induction x as [|a x IH]; intros [|b y]; simpl; try lra.
  rewrite IH. lra.
Qed.

(** Normalising multiplies the row by a positive factor: 1 for a zero row,
    the inverse of the norm for any other. *)
Lemma normalize_scale (row : list R) :
  exists c, 0 < c /\ normalize row = map (fun x => x * c) row /\
            (sumsq row <> 0 -> c = / euclidean_norm row).
Proof.
  destruct (Req_dec_T (sumsq row) 0) as [E|E].
  - exists 1. split; [lra|]. split; [|contradiction].
    rewrite normalize_zero by assumption. rewrite <- (map_id row) at 1.
    apply map_ext. intros x. lra.
  - exists (/ euclidean_norm row). split; [|split; [|reflexivity]].
    + apply Rinv_0_lt_compat. unfold euclidean_norm. apply sqrt_lt_R0.
      pose proof (sumsq_nonneg row). lra.
    + now rewrite normalize_nonzero.
Qed.

(** The score of a document is the product of its row and the row of the
    query: normalising the rows again, as [cosine_similarity] does, changes
    nothing in exact arithmetic. *)
Lemma fitted_score limit corpus (v : TfidfVectorizer R) M text i doc :
  fit_transform limit corpus = inr (v, M) ->
  nth_error corpus i = Some doc ->
  nth_error (cosine_similarity (transform v text) M) i =
  Some (dotR (transform v text) (transform v doc)).
Proof.
  intros H Hi. apply fit_transform_inv in H. destruct H as (_ & _ & ->).
  unfold cosine_similarity. rewrite map_map.
  erewrite map_nth_error by exact Hi. f_equal.
  rewrite dot_exact. unfold transform, tfidf_row. now rewrite !normalize_idem.
Qed.

(** The weights of two texts have a positive product exactly when the texts
    share a term of the vocabulary. *)
Lemma weights_overlap (features : list string) (idf : list R)
    (q d : list string) :
  List.length idf = List.length features ->
  Forall (fun w => 0 < w) idf ->
  0 <= dotR (tfidf_weights idf (count_row features q))
            (tfidf_weights idf (count_row features d)) /\
  (0 < dotR (tfidf_weights idf (count_row features q))
            (tfidf_weights idf (count_row features d)) <->
   exists t, In t features /\ In t q /\ In t d).
Proof.
  revert idf. induction features as [|t features IH]; intros [|w idf] Hlen Hidf;
    try discriminate.
  - simpl. split; [lra|]. split; [lra | intros [t [[] _]]].
  - injection Hlen as Hlen. inversion Hidf as [|? ? Hw Hidf']; subst.
    destruct (IH idf Hlen Hidf') as [IH0 IH1].
    unfold tfidf_weights, count_row in *. simpl. exact_ops.
    set (rest := dotR _ _) in *.
    pose proof (pos_INR (count_occ string_dec q t)) as Hq.
    pose proof (pos_INR (count_occ string_dec d t)) as Hd.
    assert (Hhead : 0 <= INR (count_occ string_dec q t) * w *
                         (INR (count_occ string_dec d t) * w))
      by (repeat apply Rmult_le_pos; lra).
    split; [lra|]. split.
    + intros Hpos.
      destruct (Rle_lt_dec rest 0) as [Hr|Hr].
      * exists t. split; [now left|].
        assert (Hq' : 0 < INR (count_occ string_dec q t)).
        { destruct Hq as [Hq|Hq]; [assumption|].
          rewrite <- Hq, !Rmult_0_l in Hpos. lra. }
        assert (Hd' : 0 < INR (count_occ string_dec d t)).
        { destruct Hd as [Hd|Hd]; [assumption|].
          rewrite <- Hd, Rmult_0_l, Rmult_0_r in Hpos. lra. }
        split; apply (count_occ_In string_dec); apply INR_lt; simpl;
          assumption.
      * apply IH1 in Hr. destruct Hr as [u [Hu Hqd]].
        exists u. split; [now right | assumption].
    + intros [u [[<-|Hu] [Huq Hud]]].
      * apply (count_occ_In string_dec) in Huq, Hud.
        apply lt_INR in Huq, Hud. simpl in Huq, Hud.
        assert (0 < INR (count_occ string_dec q t) * w *
                    (INR (count_occ string_dec d t) * w))
          by (repeat apply Rmult_lt_0_compat; assumption).
        lra.
      * assert (0 < rest) by (apply IH1; eauto). lra.
Qed.

Lemma dotR_zero_r x y : Forall (fun b => b = 0) y -> dotR x y = 0.
Proof.
  intros Hy. revert x. induction Hy as [|b y Hb Hy IH]; intros [|a x]; simpl;
    try reflexivity.
  rewrite IH, Hb. lra.
Qed.

(** The score of a document of a fitted corpus through the weights of the
    two texts: their product, scaled by two positive factors. *)
Lemma fitted_score_weights limit corpus (v : TfidfVectorizer R) M text i doc :
  fit_transform limit corpus = inr (v, M) ->
  nth_error corpus i = Some doc ->
  let wq := tfidf_weights (idf_ v)
              (count_row (vocabulary_ v) (build_analyzer text)) in
  let wd := tfidf_weights (idf_ v)
              (count_row (vocabulary_ v) (build_analyzer doc)) in
  exists c d, 0 < c /\ 0 < d /\
    (sumsq wq <> 0 -> c = / euclidean_norm wq) /\
    (sumsq wd <> 0 -> d = / euclidean_norm wd) /\
    nth_error (cosine_similarity (transform v text) M) i =
    Some (c * d * dotR wq wd).
Proof.
  intros H Hi wq wd. erewrite fitted_score; [|exact H|exact Hi].
  unfold transform, tfidf_row. fold wq wd.
  destruct (normalize_scale wq) as (c & Hc & -> & Hcn).
  destruct (normalize_scale wd) as (d & Hd & -> & Hdn).
  exists c, d. rewrite dotR_scale. auto.
Qed.

Lemma fitted_idf_pos limit corpus (v : TfidfVectorizer R) M :
  fit_transform limit corpus = inr (v, M) ->
  List.length (idf_ v) = List.length (vocabulary_ v) /\
  Forall (fun w => 0 < w) (idf_ v).
Proof.
  intros H. destruct (fitted_idf_ge_1 _ _ H) as [Hlen Hidf].
  split; [assumption|]. eapply Forall_impl; [|exact Hidf].
  intros w Hw. simpl in Hw. lra.
Qed.

End CosineFacts.

Local Open Scope R_scope.

(** X12.  In exact arithmetic the score of a document is the cosine of the
    angle between the tf-idf weights of the query and of the document: their
    inner product divided by the product of their Euclidean norms, and 0
    when one of the two has no term of the vocabulary. *)
Theorem score_is_cosine {srt : Argsort} {tok : Tokenizer} rows (st : @engine R) :
  load_data_and_model (Some rows) = inr (Some st) ->
  forall query i row, nth_error rows i = Some row ->
  let v := vectorizer st in
  let wq := tfidf_weights (idf_ v)
              (count_row (vocabulary_ v)
                 (build_analyzer (String.concat " " (jieba_lcut query)))) in
  let wd := tfidf_weights (idf_ v)
              (count_row (vocabulary_ v) (build_analyzer (cut_content row))) in
  exists score,
    nth_error (search st query) i = Some score /\
    (euclidean_norm wq = 0 \/ euclidean_norm wd = 0 -> score = 0) /\
    (euclidean_norm wq <> 0 -> euclidean_norm wd <> 0 ->
     score = dotR wq wd / (euclidean_norm wq * euclidean_norm wd)).
Proof.
  intros H query i row Hi v wq wd.
  apply load_inv in H. destruct H as [_ Hfit].
  apply (map_nth_error cut_content) in Hi.
  destruct (fitted_score_weights _ _ (String.concat " " (jieba_lcut query)) _
              Hfit Hi)
    as (c & d & _ & _ & Hc & Hd & Hs).
  fold v in Hc, Hd, Hs. fold wq in Hc, Hs. fold wd in Hd, Hs.
  eexists. split; [exact Hs|]. split.
  - rewrite !euclidean_norm_zero. intros [Z|Z]; apply sumsq_zero in Z.
    + rewrite dotR_zero_l by assumption. lra.
    + rewrite dotR_zero_r by assumption. lra.
  - intros Hq Hdoc.
    rewrite Hc by (now rewrite <- euclidean_norm_zero).
    rewrite Hd by (now rewrite <- euclidean_norm_zero).
    now field.
Qed.

(** X13.  In exact arithmetic a document scores more than 0 exactly when it
    shares a term of the vocabulary with the query, so every result a
    search shows shares such a term with the query. *)
Theorem only_related_documents_shown {srt : Argsort} {tok : Tokenizer}
    rows (st : @engine R) :
  load_data_and_model (Some rows) = inr (Some st) ->
  forall query : string,
  let shares (row : news) :=
    exists t, In t (vocabulary_ (vectorizer st)) /\
              In t (build_analyzer (String.concat " " (jieba_lcut query))) /\
              In t (build_analyzer (cut_content row)) in
  (forall i row, nth_error rows i = Some row ->
     exists score, nth_error (search st query) i = Some score /\
                   (0 < score <-> shares row)) /\
  (forall search_btn idx score,
     In (idx, score) (results (search_response st search_btn query)) ->
     exists row, nth_error rows idx = Some row /\ shares row).
Proof.
  intros H query shares.
  apply load_inv in H. destruct H as [_ Hfit].
  destruct (fitted_idf_pos _ _ Hfit) as [Hlen Hidf].
  assert (Hscore : forall i row, nth_error rows i = Some row ->
            exists score, nth_error (search st query) i = Some score /\
                          (0 < score <-> shares row)).
  { intros i row Hi. apply (map_nth_error cut_content) in Hi.
    destruct (fitted_score_weights _ _
                (String.concat " " (jieba_lcut query)) _ Hfit Hi)
      as (c & d & Hc & Hd & _ & _ & Hs).
    eexists. split; [exact Hs|].
    destruct (@weights_overlap (vocabulary_ (vectorizer st))
                (idf_ (vectorizer st))
                (build_analyzer (String.concat " " (jieba_lcut query)))
                (build_analyzer (cut_content row)) Hlen Hidf) as [H0 H1].
    unfold shares. rewrite <- H1.
    assert (Hcd : 0 < c * d) by now apply Rmult_lt_0_compat.
    split; intros Hpos.
    - apply Rmult_lt_reg_l with (c * d); [assumption|]. lra.
    - now apply Rmult_lt_0_compat. }
  split; [exact Hscore|].
  intros search_btn idx score Hin.
  unfold search_response in Hin.
  destruct (search_btn && negb (query =? "")%string); [|destruct Hin].
  simpl in Hin. unfold rank in Hin. apply show_results_In in Hin.
  destruct Hin as (Hidx & Hnth & Hfloor).
  apply sorted_indices_bound in Hidx.
  rewrite relevance_floor_exact in Hfloor.
  change (Rltb score (5 / 100) = false) in Hfloor. apply Rltb_false in Hfloor.
  assert (Hrows : (idx < List.length rows)%nat).
  { rewrite search_length in Hidx.
    apply fit_transform_inv in Hfit. destruct Hfit as (_ & _ & HM).
    rewrite HM, !length_map in Hidx. exact Hidx. }
  destruct (nth_error rows idx) as [row|] eqn:Hrow;
    [|apply nth_error_None in Hrow; lia].
  exists row. split; [reflexivity|].
  destruct (Hscore idx row Hrow) as (s & Hs & Hiff).
  apply Hiff. apply (nth_error_nth _ _ 0) in Hs.
  change (@fzero R exact) with 0 in Hnth. rewrite Hs in Hnth. lra.
Qed.

Local Close Scope R_scope.

(** ** The ten best *)

Lemma nth_error_combine_seq {A : Type} (a : list A) n j x :
  nth_error a j = Some x -> In (n + j, x) (combine (seq n (List.length a)) a).
Proof.
  revert n j. induction a as [|y a IH]; intros n [|j]; simpl; try discriminate.
  - intros [= ->]. left. f_equal. lia.
  - intros H. right. replace (n + S j) with (S n + j) by lia. now apply IH.
Qed.

Lemma nth_error_enumerate {A : Type} (a : list A) j x :
  nth_error a j = Some x -> In (j, x) (enumerate a).
Proof. intros H. apply (nth_error_combine_seq a 0 j H). Qed.

Lemma map_snd_combine_seq {A : Type} (a : list A) n :
  map snd (combine (seq n (List.length a)) a) = a.
Proof.
  revert n. induction a as [|x a IH]; intros n; simpl; [reflexivity|].
  now rewrite IH.
Qed.

Lemma filter_enumerate_length {A : Type} (f : A -> bool) (a : list A) :
  List.length (filter (fun p => f (snd p)) (enumerate a)) =
  List.length (filter f a).
Proof.
  rewrite <- (map_snd_combine_seq a 0) at 2.
  now rewrite filter_map_swap, length_map.
Qed.

Section BestFacts.
Context {srt : Argsort}.
Local Open Scope R_scope.

(** The results are the ten first of the documents whose score is not below
    the floor, in descending order of score. *)
Lemma rank_best (a : list R) :
  exists best,
    rank a = firstn top_k best /\
    (forall p, In p best <-> In p (enumerate a) /\ 5 / 100 <= snd p) /\
    List.length best =
      List.length (filter (fun s => negb (Rltb s (5 / 100))) a) /\
    StronglySorted (fun p q : nat * R => snd q <= snd p) best.
Proof.
  assert (Hfloor : forall p : nat * R,
            not_below_floor p = negb (Rltb (snd p) (5 / 100))).
  { intros p. unfold not_below_floor. now rewrite relevance_floor_exact. }
  exists (filter not_below_floor (map (scored a) (rev (argsort Rltb a)))).
  split; [|split; [|split]].
  - apply (@rank_prefix R exact srt Rltb_asym Rleb_trans).
  - intros p. rewrite filter_In, Hfloor, negb_true_iff, Rltb_false.
    split; intros [H K]; (split; [|exact K]).
    + eapply Permutation_in; [apply (@scored_rev_perm R exact srt a) | exact H].
    + eapply Permutation_in;
        [symmetry; apply (@scored_rev_perm R exact srt a) | exact H].
  - rewrite (Permutation_length
               (filter_perm not_below_floor (@scored_rev_perm R exact srt a))).
    rewrite <- (filter_enumerate_length (fun s => negb (Rltb s (5 / 100)))).
    f_equal. apply filter_ext. exact Hfloor.
  - apply shown_sorted.
Qed.

End BestFacts.

(** X14.  In any arithmetic, every result is a document of the corpus with
    its own score, and no document is shown twice. *)
Theorem results_are_documents {num : Type} {ar : Arith num}
    {srt : Argsort} {tok : Tokenizer}
    (st : @engine num) (search_btn : bool) (query : string) :
  NoDup (map fst (results (search_response st search_btn query))) /\
  forall idx score,
    In (idx, score) (results (search_response st search_btn query)) ->
    idx < List.length (tfidf_matrix st) /\
    nth_error (search st query) idx = Some score.
Proof.
  unfold search_response.
  destruct (search_btn && negb (query =? "")%string); simpl;
    [|split; [constructor | intros ? ? []]].
  unfold rank. split.
  - rewrite show_results_indices. apply NoDup_filter, sorted_indices_NoDup.
  - intros idx score H. apply show_results_In in H.
    destruct H as (Hin & -> & _).
    apply sorted_indices_bound in Hin. split.
    + now rewrite search_length in Hin.
    + now apply nth_error_nth'.
Qed.

(** X15.  A search shows as many results as there are documents whose score
    is not below 0.05, up to 10; a document that is left out scores below
    0.05, or 10 results are shown and every one of them scores at least as
    much. *)
Theorem nothing_better_left_out {srt : Argsort} {tok : Tokenizer}
    (st : @engine R) (search_btn : bool) (query : string) :
  search_btn = true -> query <> EmptyString ->
  let scores := search st query in
  let shown := results (search_response st search_btn query) in
  List.length shown =
    Nat.min 10
      (List.length (filter (fun s => negb (Rltb s (5 / 100))) scores)) /\
  forall j s, nth_error scores j = Some s -> ~ In (j, s) shown ->
    (s < 5 / 100)%R \/
    (List.length shown = 10 /\ forall p, In p shown -> (s <= snd p)%R).
Proof.
  intros -> Hq scores shown.
  assert (Hshown : shown = rank scores).
  { unfold shown, search_response. apply String.eqb_neq in Hq.
    now rewrite Hq. }
  destruct (rank_best scores) as (best & Hrank & Hbest & Hlen & Hsorted).
  rewrite Hshown, Hrank. split.
  - rewrite length_firstn, Hlen. reflexivity.
  - intros j s Hj Hout.
    destruct (Rlt_dec s (5 / 100)) as [Hlow|Hok]; [now left | right].
    assert (Hin : In (j, s) best).
    { apply Hbest. split; [now apply nth_error_enumerate | simpl; lra]. }
    rewrite <- (firstn_skipn top_k best) in Hin, Hsorted.
    apply in_app_iff in Hin. destruct Hin as [Hin|Hin]; [contradiction|].
    split.
    + rewrite length_firstn. unfold top_k in *.
      destruct (le_lt_dec (List.length best) 10) as [Hle|Hgt]; [|lia].
      rewrite skipn_all2 in Hin by assumption. contradiction.
    + intros p Hp.
      apply (@StronglySorted_app_inv _ _ _ _ Hsorted p (j, s) Hp Hin).
Qed.

(** X16.  In exact arithmetic, a search with the text of a document of the
    file that has a term of the vocabulary shows at least one result, and
    the first result scores exactly 1; the document itself is among the
    results, unless ten results are shown that all score 1. *)
Theorem own_text_tops_the_list {srt : Argsort} {tok : Tokenizer}
    rows (st : @engine R) :
  load_data_and_model (Some rows) = inr (Some st) ->
  forall i row, nth_error rows i = Some row ->
  (exists t, In t (build_analyzer (cut_content row)) /\
             In t (vocabulary_ (vectorizer st))) ->
  forall query, query <> EmptyString ->
    build_analyzer (String.concat " " (jieba_lcut query)) =
    build_analyzer (cut_content row) ->
    let shown := results (search_response st true query) in
    (exists idx rest, shown = (idx, 1%R) :: rest) /\
    (In (i, 1%R) shown \/
     (List.length shown = 10 /\ forall p, In p shown -> snd p = 1%R)).
Proof.
  intros H i row Hi Hv query Hq Htext shown.
  apply load_inv in H. destruct H as [_ Hfit].
  assert (Hone : nth_error (search st query) i = Some 1%R).
  { unfold search. eapply self_similarity; try eassumption.
    now apply map_nth_error. }
  assert (Hle : forall p, In p (enumerate (search st query)) -> (snd p <= 1)%R).
  { intros [j s] Hp. simpl. apply in_combine_r in Hp.
    pose proof (cosine_similarity_le_1
                  (transform (vectorizer st)
                     (String.concat " " (jieba_lcut query)))
                  (tfidf_matrix st)) as Hall.
    rewrite Forall_forall in Hall. now apply Hall. }
  assert (Hshown : shown = rank (search st query)).
  { unfold shown, search_response. apply String.eqb_neq in Hq.
    now rewrite Hq. }
  destruct (rank_best (search st query)) as (best & Hrank & Hbest & _ & Hsorted).
  rewrite Hshown, Hrank. clear Hshown Hrank shown.
  assert (Hin : In (i, 1%R) best).
  { apply Hbest. split; [now apply nth_error_enumerate | simpl; lra]. }
  assert (Hmax : forall p, In p best -> (snd p <= 1)%R).
  { intros p Hp. now apply Hle, Hbest. }
  split.
  - destruct best as [|[idx s] rest]; [destruct Hin|].
    assert (Hs : (s <= 1)%R) by (apply (Hmax (idx, s)); now left).
    inversion Hsorted as [|? ? _ Hhead]; subst. rewrite Forall_forall in Hhead.
    assert (Es : s = 1%R).
    { destruct Hin as [Hin|Hin].
      - now injection Hin as _ ->.
      - specialize (Hhead _ Hin). simpl in Hhead. lra. }
    subst s. unfold top_k. simpl. eauto.
  - rewrite <- (firstn_skipn top_k best) in Hin, Hsorted.
    apply in_app_iff in Hin. destruct Hin as [Hin|Hin]; [now left | right].
    split.
    + rewrite length_firstn. unfold top_k in *.
      destruct (le_lt_dec (List.length best) 10) as [Hshort|Hlong]; [|lia].
      rewrite skipn_all2 in Hin by assumption. contradiction.
    + intros p Hp.
      pose proof (@StronglySorted_app_inv _ _ _ _ Hsorted p (i, 1%R) Hp Hin)
        as Hge.
      pose proof (Hmax p (In_firstn _ _ _ Hp)) as Hp1.
      simpl in Hge. lra.
Qed.

(** ** The cards *)

(** X17.  For an engine whose matrix has one row per row of [df], the loop
    never leaves the rows of [df]: no run ends in [IndexError], the closing
    line is the one of the page, and there is one card per result, in the
    order of the results, with the title, the link and the preview of the
    row the result points at and the score of the result. *)
Theorem cards_follow_results {num : Type} {ar : Arith num}
    {srt : Argsort} {tok : Tokenizer}
    (st : @engine num) (search_btn : bool) (query : string) :
  List.length (df st) = List.length (tfidf_matrix st) ->
  ending (search_block st search_btn query) =
    inr (closing (search_response st search_btn query)) /\
  Forall2 (fun c r => exists row,
             nth_error (df st) (fst r) = Some row /\
             heading c = card_heading row /\
             progress c = snd r /\
             caption c = content_preview row)
          (cards (search_block st search_btn query))
          (results (search_response st search_btn query)).
Proof.
  intros Hlen. unfold search_block, search_response.
  destruct (search_btn && negb (query =? "")%string);
    [|split; [reflexivity | constructor]].
  set (a := search st query).
  destruct (@render_results_shown _ _ (df st) a
              (firstn top_k (rev (argsort fltb a))) 0) as [shown [E HF]].
  { apply Forall_forall. intros idx Hidx. apply sorted_indices_bound in Hidx.
    unfold a in Hidx. rewrite search_length in Hidx. lia. }
  rewrite E. cbn [cards ending results closing]. fold (rank a).
  split; [|exact HF].
  simpl. now destruct (List.length (rank a)).
Qed.

Lemma code_points_append (s1 s2 : string) :
  code_points (s1 ++ s2) = code_points s1 + code_points s2.
Proof.
  induction s1 as [|c s1 IH]; simpl; [reflexivity|].
  destruct (is_continuation c); now rewrite IH.
Qed.

(** [s[:m]]: the [m] first characters of [s], all of [s] when it has no
    more; what is left starts at the first byte of a character. *)
Lemma str_prefix_split (m : nat) (s : string) :
  exists rest,
    s = (str_prefix m s ++ rest)%string /\
    code_points (str_prefix m s) = Nat.min m (code_points s) /\
    (code_points s <= m -> rest = EmptyString) /\
    (forall c rest', rest = String c rest' -> is_continuation c = false).
Proof.
  revert m. induction s as [|c s IH]; intros m; simpl.
  - exists EmptyString. repeat split; [now rewrite Nat.min_0_r | discriminate].
  - destruct (is_continuation c) eqn:Ec.
    + destruct (IH m) as (rest & H1 & H2 & H3 & H4). exists rest.
      simpl. rewrite Ec. split; [now rewrite <- H1|]. auto.
    + destruct m as [|m].
      * exists (String c s). repeat split; [lia|].
        intros c' rest' E. now injection E as <- _.
      * destruct (IH m) as (rest & H1 & H2 & H3 & H4). exists rest.
        simpl. rewrite Ec. split; [now rewrite <- H1|].
        split; [now rewrite H2|]. split; [|exact H4].
        intros H. apply H3. lia.
Qed.

(** X18.  The caption of a card is the 80 first characters of the content of
    the article, or all of it when it has no more, followed by three dots;
    the cut does not fall inside a character; the dots are added whether or
    not something was cut, and the caption never has more than 83
    characters.  (A text is held as its UTF-8 bytes, and its characters are
    counted by [code_points].) *)
Theorem content_preview_shape (row : news) :
  exists kept cut,
    content row = (kept ++ cut)%string /\
    content_preview row = (kept ++ "...")%string /\
    code_points kept = Nat.min 80 (code_points (content row)) /\
    (code_points (content row) <= 80 -> cut = EmptyString) /\
    (forall c cut', cut = String c cut' -> is_continuation c = false) /\
    code_points (content_preview row) <= 83.
Proof.
  destruct (str_prefix_split 80 (content row)) as (cut & H1 & H2 & H3 & H4).
  exists (str_prefix 80 (content row)), cut.
  split; [exact H1|]. split; [reflexivity|]. split; [exact H2|].
  split; [exact H3|]. split; [exact H4|].
  unfold content_preview. rewrite code_points_append, H2.
  change (code_points "...") with 3.
  pose proof (Nat.le_min_l 80 (code_points (content row))). lia.
Qed.

(** The counter of the loop: it goes up by one with every card, and with
    the iteration that [df.iloc] ends. *)
Lemma render_results_count {num : Type} {ar : Arith num}
    (rows : list news) (a : list num) (l : list nat) (n : nat) :
  match snd (render_results rows a l n) with
  | inr found_count =>
      found_count = n + List.length (fst (render_results rows a l n)) /\
      List.length (fst (render_results rows a l n)) <= List.length l
  | inl e =>
      e = IndexError "single positional indexer is out-of-bounds" /\
      List.length (fst (render_results rows a l n)) < List.length l
  end.
Proof.
  revert n. induction l as [|idx l IH]; intros n; simpl; [lia|].
  destruct (fltb (nth idx a fzero) relevance_floor).
  - specialize (IH n).
    destruct (snd (render_results rows a l n)); destruct IH; split;
      solve [assumption | lia].
  - unfold iloc. destruct (nth_error rows idx) as [row|]; simpl.
    + specialize (IH (S n)).
      destruct (render_results rows a l (S n)) as [shown r]. simpl in *.
      destruct r; destruct IH; split; solve [assumption | lia].
    + split; [reflexivity | lia].
Qed.

(** X19.  The closing line counts the cards that the loop has put on the
    screen, in any arithmetic and for any engine: nothing is said and no
    card is shown when no search ran; the warning comes exactly when a
    search rendered no card; the success line gives the number of cards,
    which is between 1 and 10; and a run that [df.iloc] ends has rendered
    fewer than 10 cards and shows no closing line. *)
Theorem closing_counts_results {num : Type} {ar : Arith num}
    {srt : Argsort} {tok : Tokenizer}
    (st : @engine num) (search_btn : bool) (query : string) :
  let s := search_block st search_btn query in
  match ending s with
  | inr Silent => (search_btn = false \/ query = EmptyString) /\ cards s = []
  | inr Warning => search_btn = true /\ query <> EmptyString /\ cards s = []
  | inr (Success found_count) =>
      search_btn = true /\ query <> EmptyString /\
      found_count = List.length (cards s) /\ 1 <= found_count <= 10
  | inl e =>
      search_btn = true /\ query <> EmptyString /\
      e = IndexError "single positional indexer is out-of-bounds" /\
      List.length (cards s) < 10
  end.
Proof.
  cbv zeta. unfold search_block.
  destruct (search_btn && negb (query =? "")%string) eqn:G.
  - apply andb_true_iff in G. destruct G as [-> G].
    apply negb_true_iff, String.eqb_neq in G.
    set (a := search st query).
    set (l := firstn top_k (rev (argsort fltb a))).
    assert (Hl : List.length l <= 10) by apply firstn_le_length.
    clearbody l.
    pose proof (render_results_count (df st) a l 0) as H.
    destruct (render_results (df st) a l 0) as [shown [e|found_count]];
      cbn [fst snd cards ending] in *.
    + destruct H as [-> H]. repeat split; try assumption. lia.
    + destruct H as [-> H]. cbn [Nat.add].
      destruct shown as [|c shown]; cbn [List.length Nat.eqb]; [auto|].
      cbn [List.length] in H. repeat split; try assumption; lia.
  - cbn [cards ending]. split; [|reflexivity].
    apply andb_false_iff in G. destruct G as [G|G].
    + now left.
    + right. apply negb_false_iff in G. now apply String.eqb_eq in G.
Qed.

(** * Part VI: the further properties on concrete corpora *)

Section MoreRuns.
#[local] Existing Instance numpy_stable.
#[local] Existing Instance ascii_tokenizer.
Local Open Scope R_scope.

(** X2, witness: the sample corpus. *)
Lemma loaded_shapes_witness :
  load_data_and_model (Some sample_rows) = inr (Some sample_engine) /\
  let vocabulary := vocabulary_ (vectorizer sample_engine) in
  df sample_engine = sample_rows /\
  List.length (tfidf_matrix sample_engine) = List.length sample_rows /\
  (1 <= List.length vocabulary <= max_features)%nat /\
  NoDup vocabulary /\
  List.length (idf_ (vectorizer sample_engine)) = List.length vocabulary /\
  Forall (fun row => List.length row = List.length vocabulary)
         (tfidf_matrix sample_engine) /\
  forall query,
    List.length (transform (vectorizer sample_engine) query) =
      List.length vocabulary /\
    List.length (search sample_engine query) = List.length sample_rows.
Proof.
  split; [exact sample_load|].
  exact (@loaded_shapes numpy_stable ascii_tokenizer
           sample_rows sample_engine sample_load).
Defined.

(** X3, witness: document 1 of the sample corpus. *)
Lemma documents_vectorised_like_queries_witness :
  load_data_and_model (Some sample_rows) = inr (Some sample_engine) /\
  nth_error sample_rows 1 = Some (article "a1" "cafeteria menu") /\
  nth_error (tfidf_matrix sample_engine) 1 =
    Some (transform (vectorizer sample_engine) "cafeteria menu") /\
  nth_error (df sample_engine) 1 = Some (article "a1" "cafeteria menu").
Proof.
  split; [exact sample_load|]. split; [reflexivity|].
  exact (@documents_vectorised_like_queries numpy_stable ascii_tokenizer sample_rows
           sample_engine sample_load 1%nat (article "a1" "cafeteria menu")
           eq_refl).
Defined.

(** X4, witness: the sample corpus under a cap of one term; it has 5
    different terms. *)
Lemma vocabulary_size_witness :
  let v := {| vocabulary_ := ["scholarship"]%string;
              idf_ := fit_idf [[1]; [0]; [1]]%nat 1 |} in
  let M := map (tfidf_row (idf_ v)) [[1]; [0]; [1]]%nat in
  let docs := map build_analyzer sample_corpus in
  let terms := count_vocab docs in
  fit_transform 1 sample_corpus = inr (v, M) /\
  NoDup terms /\ (forall t, In t terms <-> In t (List.concat docs)) /\
  List.length (vocabulary_ v) = Nat.min 1 (List.length terms) /\
  ((List.length terms <= 1)%nat ->
   forall t, In t (vocabulary_ v) <-> In t (List.concat docs)).
Proof.
  intros v M docs terms.
  split; [exact (fit_transform_eq 1 sample_corpus sample_count_fit_1)|].
  exact (@vocabulary_size numpy_stable ascii_tokenizer 1 sample_corpus v M
           (fit_transform_eq 1 sample_corpus sample_count_fit_1)).
Defined.

(** X5, witness: the sample corpus with its two first rows
    swapped. *)
Lemma row_order_does_not_matter_witness :
  let rows' := [article "a1" "cafeteria menu";
                article "a0" "scholarship exam";
                article "a2" "scholarship deadline"] in
  Permutation sample_rows rows' /\
  load_data_and_model (Some sample_rows) = inr (Some sample_engine) /\
  exists st',
    load_data_and_model (Some rows') = inr (Some st') /\
    df st' = rows' /\ vectorizer st' = vectorizer sample_engine /\
    forall query i j row,
      nth_error sample_rows i = Some row -> nth_error rows' j = Some row ->
      nth_error (search st' query) j = nth_error (search sample_engine query) i.
Proof.
  intros rows'.
  assert (Hp : Permutation sample_rows rows') by apply perm_swap.
  split; [exact Hp|]. split; [exact sample_load|].
  exact (@row_order_does_not_matter numpy_stable ascii_tokenizer sample_rows rows'
           sample_engine Hp sample_load).
Defined.

(** X6, witness: "exam", which one of the three sample documents
    contains, and "scholarship", which two contain. *)
Lemma rarer_terms_weigh_more_witness :
  let v := vectorizer sample_engine in
  let docs := map build_analyzer sample_corpus in
  fit_transform max_features sample_corpus = inr (v, tfidf_matrix sample_engine) /\
  nth_error (vocabulary_ v) 2 = Some "exam"%string /\
  nth_error (idf_ v) 2 = Some (smooth_idf 3 1) /\
  nth_error (vocabulary_ v) 4 = Some "scholarship"%string /\
  nth_error (idf_ v) 4 = Some (smooth_idf 3 2) /\
  1 <= smooth_idf 3 1 <= smooth_idf (List.length sample_corpus) 1 /\
  (docs_containing "exam" docs = List.length sample_corpus -> smooth_idf 3 1 = 1) /\
  ((docs_containing "exam" docs < docs_containing "scholarship" docs)%nat ->
   smooth_idf 3 2 < smooth_idf 3 1) /\
  (docs_containing "exam" docs = docs_containing "scholarship" docs ->
   smooth_idf 3 2 = smooth_idf 3 1).
Proof.
  intros v docs.
  pose proof (fit_transform_eq max_features sample_corpus sample_count_fit) as Hfit.
  split; [exact Hfit|].
  repeat (split; [reflexivity|]).
  exact (@rarer_terms_weigh_more numpy_stable ascii_tokenizer
           max_features sample_corpus v _
           Hfit 2%nat 4%nat "exam"%string "scholarship"%string _ _
           eq_refl eq_refl eq_refl eq_refl).
Defined.

(** X8, witness: the token "exam" of a text with capitals, a word of
    one letter and a number. *)
Lemma analyzer_tokens_witness :
  In "exam"%string (build_analyzer "Exam A of 2024") /\
  (2 <= String.length "exam")%nat /\
  forall c, In c (list_ascii_of_string "exam") ->
    is_word_char c = true /\ lower_char c = c.
Proof.
  assert (H : In "exam"%string (build_analyzer "Exam A of 2024"))
    by (vm_compute; auto).
  split; [exact H|].
  exact (@analyzer_tokens "Exam A of 2024" "exam" H).
Defined.

(** X11, witness: a query and the query that says it twice. *)
Lemma repeated_query_same_scores_witness :
  (0 < 2)%nat /\
  (forall t, In t (vocabulary_ (vectorizer sample_engine)) ->
     count_occ string_dec
       (build_analyzer (String.concat " " (jieba_lcut "exam menu exam menu"))) t =
     (2 * count_occ string_dec
            (build_analyzer (String.concat " " (jieba_lcut "menu exam"))) t)%nat) /\
  search sample_engine "exam menu exam menu" = search sample_engine "menu exam".
Proof.
  assert (H : forall t, In t (vocabulary_ (vectorizer sample_engine)) ->
     count_occ string_dec
       (build_analyzer (String.concat " " (jieba_lcut "exam menu exam menu"))) t =
     (2 * count_occ string_dec
            (build_analyzer (String.concat " " (jieba_lcut "menu exam"))) t)%nat).
  { intros t Ht. simpl in Ht.
    repeat (destruct Ht as [<-|Ht]; [vm_compute; reflexivity|]).
    destruct Ht. }
  split; [apply Nat.lt_0_2|]. split; [exact H|].
  exact (@repeated_query_same_scores ascii_tokenizer sample_engine
           "menu exam" "exam menu exam menu" 2 Nat.lt_0_2 H).
Defined.

(** X12, witness: document 0 of the sample corpus, searched for "exam". *)
Lemma score_is_cosine_witness :
  load_data_and_model (Some sample_rows) = inr (Some sample_engine) /\
  nth_error sample_rows 0 = Some (article "a0" "scholarship exam") /\
  let v := vectorizer sample_engine in
  let wq := tfidf_weights (idf_ v)
              (count_row (vocabulary_ v)
                 (build_analyzer (String.concat " " (jieba_lcut "exam")))) in
  let wd := tfidf_weights (idf_ v)
              (count_row (vocabulary_ v) (build_analyzer "scholarship exam")) in
  exists score,
    nth_error (search sample_engine "exam") 0 = Some score /\
    (euclidean_norm wq = 0 \/ euclidean_norm wd = 0 -> score = 0) /\
    (euclidean_norm wq <> 0 -> euclidean_norm wd <> 0 ->
     score = dotR wq wd / (euclidean_norm wq * euclidean_norm wd)).
Proof.
  split; [exact sample_load|]. split; [reflexivity|].
  exact (@score_is_cosine numpy_stable ascii_tokenizer
           sample_rows sample_engine sample_load
           "exam" 0%nat (article "a0" "scholarship exam") eq_refl).
Defined.

(** X13, witness: the sample corpus searched for "exam". *)
Lemma only_related_documents_shown_witness :
  load_data_and_model (Some sample_rows) = inr (Some sample_engine) /\
  let shares (row : news) :=
    exists t, In t (vocabulary_ (vectorizer sample_engine)) /\
              In t (build_analyzer (String.concat " " (jieba_lcut "exam"))) /\
              In t (build_analyzer (cut_content row)) in
  (forall i row, nth_error sample_rows i = Some row ->
     exists score, nth_error (search sample_engine "exam") i = Some score /\
                   (0 < score <-> shares row)) /\
  (forall search_btn idx score,
     In (idx, score) (results (search_response sample_engine search_btn "exam")) ->
     exists row, nth_error sample_rows idx = Some row /\ shares row).
Proof.
  split; [exact sample_load|].
  exact (@only_related_documents_shown numpy_stable ascii_tokenizer
           sample_rows sample_engine
           sample_load "exam").
Defined.

(** X15, witness: the sample corpus searched for "exam". *)
Lemma nothing_better_left_out_witness :
  true = true /\ "exam"%string <> EmptyString /\
  let scores := search sample_engine "exam" in
  let shown := results (search_response sample_engine true "exam") in
  List.length shown =
    Nat.min 10
      (List.length (filter (fun s => negb (Rltb s (5 / 100))) scores)) /\
  forall j s, nth_error scores j = Some s -> ~ In (j, s) shown ->
    s < 5 / 100 \/
    (List.length shown = 10%nat /\ forall p, In p shown -> s <= snd p).
Proof.
  assert (Hq : "exam"%string <> EmptyString) by discriminate.
  split; [reflexivity|]. split; [exact Hq|].
  exact (@nothing_better_left_out numpy_stable ascii_tokenizer sample_engine true "exam"
           eq_refl Hq).
Defined.

(** X16, witness: the sample corpus searched with the text of
    document 1, in capitals. *)
Lemma own_text_tops_the_list_witness :
  load_data_and_model (Some sample_rows) = inr (Some sample_engine) /\
  nth_error sample_rows 1 = Some (article "a1" "cafeteria menu") /\
  (exists t, In t (build_analyzer "cafeteria menu") /\
             In t (vocabulary_ (vectorizer sample_engine))) /\
  "Cafeteria MENU"%string <> EmptyString /\
  build_analyzer (String.concat " " (jieba_lcut "Cafeteria MENU")) =
    build_analyzer "cafeteria menu" /\
  let shown := results (search_response sample_engine true "Cafeteria MENU") in
  (exists idx rest, shown = (idx, 1) :: rest) /\
  (In (1%nat, 1) shown \/
   (List.length shown = 10%nat /\ forall p, In p shown -> snd p = 1)).
Proof.
  assert (Hv : exists t, In t (build_analyzer "cafeteria menu") /\
                         In t (vocabulary_ (vectorizer sample_engine))).
  { exists "menu"%string. split; vm_compute; auto. }
  assert (Hq : "Cafeteria MENU"%string <> EmptyString) by discriminate.
  split; [exact sample_load|]. split; [reflexivity|]. split; [exact Hv|].
  split; [exact Hq|]. split; [reflexivity|].
  exact (@own_text_tops_the_list numpy_stable ascii_tokenizer sample_rows
           sample_engine sample_load 1%nat (article "a1" "cafeteria menu")
           eq_refl Hv "Cafeteria MENU" Hq eq_refl).
Defined.

(** X17, witness: in binary64, the corpus of a document and its
    repetition, searched for "aa bb". *)
Lemma cards_follow_results_witness :
  List.length (df repeated_floats) = List.length (tfidf_matrix repeated_floats) /\
  ending (search_block repeated_floats true "aa bb") =
    inr (closing (search_response repeated_floats true "aa bb")) /\
  Forall2 (fun c r => exists row,
             nth_error (df repeated_floats) (fst r) = Some row /\
             heading c = card_heading row /\
             progress c = snd r /\
             caption c = content_preview row)
          (cards (search_block repeated_floats true "aa bb"))
          (results (search_response repeated_floats true "aa bb")).
Proof.
  split; [reflexivity|].
  exact (@cards_follow_results _ binary64 numpy_stable ascii_tokenizer
           repeated_floats true
           "aa bb" eq_refl).
Defined.

(** C9, witness: the sample corpus searched for "exam", which document 0
    alone contains: no two documents score the same at or above the
    floor. *)
Lemma ranker_steps_agree_witness :
  let scores := search sample_engine "exam" in
  (forall i j s,
     nth_error scores i = Some s -> nth_error scores j = Some s ->
     5 / 100 <= s -> i = j) /\
  results (search_response sample_engine true "exam") = ranker_steps scores.
Proof.
  intros scores.
  assert (Hfit : fit_transform max_features sample_corpus =
                 inr (vectorizer sample_engine, tfidf_matrix sample_engine))
    by exact (fit_transform_eq max_features sample_corpus sample_count_fit).
  destruct (fitted_idf_pos _ _ Hfit) as [Hlen Hidf].
  assert (Hzero : forall i doc s,
            nth_error sample_corpus i = Some doc ->
            ~ In "exam"%string (build_analyzer doc) ->
            nth_error scores i = Some s -> s = 0).
  { intros i doc s Hi Hdoc Hs.
    destruct (fitted_score_weights _ _
                (String.concat " " (jieba_lcut "exam")) _ Hfit Hi)
      as (c & d & _ & _ & _ & _ & E).
    destruct (@weights_overlap (vocabulary_ (vectorizer sample_engine))
                (idf_ (vectorizer sample_engine))
                (build_analyzer (String.concat " " (jieba_lcut "exam")))
                (build_analyzer doc) Hlen Hidf) as [H0 H1].
    set (D := dotR _ _) in E, H0, H1.
    assert (HD : D = 0).
    { destruct H0 as [H0|H0]; [|now symmetry].
      apply H1 in H0. destruct H0 as (t & _ & Hq & Hd).
      destruct Hq as [<-|[]]. contradiction. }
    unfold scores, search in Hs. rewrite E, HD in Hs.
    injection Hs as <-. lra. }
  assert (Honly : forall i s, nth_error scores i = Some s -> 5 / 100 <= s ->
                              i = 0%nat).
  { intros [|[|[|i]]] s Hs Hge; [reflexivity| | |].
    - assert (s = 0) by
        (apply (Hzero 1%nat "cafeteria menu"%string s eq_refl);
         [vm_compute; intuition discriminate | exact Hs]).
      lra.
    - assert (s = 0) by
        (apply (Hzero 2%nat "scholarship deadline"%string s eq_refl);
         [vm_compute; intuition discriminate | exact Hs]).
      lra.
    - assert (Hn : (List.length scores <= S (S (S i)))%nat).
      { unfold scores. rewrite search_length. simpl. lia. }
      apply nth_error_None in Hn. rewrite Hn in Hs. discriminate. }
  assert (Hinj : forall i j s,
            nth_error scores i = Some s -> nth_error scores j = Some s ->
            5 / 100 <= s -> i = j).
  { intros i j s Hi Hj Hge.
    rewrite (Honly i s Hi Hge), (Honly j s Hj Hge). reflexivity. }
  split; [exact Hinj|].
  exact (proj2 (@ranker_steps_agree numpy_stable ascii_tokenizer sample_engine
                  true "exam") Hinj).
Defined.

End MoreRuns.
